(** * leetoffer: the ingestion pipeline, embedded and verified

    A shallow embedding of the ingestion pipeline of the leetoffer
    repository: the forum client ([refresh.ts]), the two extraction
    clients ([packages/leetcomp/src/parse.ts] on the Gemini SDK and
    [packages/leetoffer/src/parse.ts] on the Perplexity HTTP API), and the
    orchestrator with its store ([packages/leetoffer/src/index.ts]).

    Conventions of the embedding.
    - A JavaScript value that may be [undefined], [null] or present is a
      [nullable]; truthiness ([!!x], [if (x)], [a || b]) is the class
      [Truthy].
    - Numbers are JSON numbers.  The embedding carries the integral ones,
      as [Z]; among them zero is the only falsy one, and [String(n)] is the
      decimal rendering.
    - A promise that resolves or rejects is an [Outcome]; [await sleep] and
      calls to the outside world are recorded in a trace of events.
    - What the outside world answers (the forum, the model, the file
      system, the gist API, the clock) is an explicit argument. *)

From Stdlib Require Import Ascii.
From stdpp Require Import base strings list gmap pretty.

Open Scope Z_scope.

(** ** JavaScript values *)

Module JS.

Inductive nullable (A : Type) : Type :=
| undefined
| null
| value (a : A).
Arguments undefined {A}.
Arguments null {A}.
Arguments value {A} a.

(** [!!x] *)
Class Truthy (A : Type) := truthy : A → bool.

#[global] Instance truthy_string : Truthy string :=
  λ s, match s with EmptyString => false | String _ _ => true end.
#[global] Instance truthy_number : Truthy Z :=
  λ n, negb (n =? 0).
#[global] Instance truthy_nullable {A} `{Truthy A} : Truthy (nullable A) :=
  λ x, match x with value a => truthy a | _ => false end.

(** The truthy values of the two kinds of field an offer has. *)
Definition nonEmpty (x : nullable string) : Prop := ∃ s, x = value s ∧ s ≠ "".
Definition nonZero (x : nullable Z) : Prop := ∃ n, x = value n ∧ n ≠ 0.

(** [a || b]: the first operand when it is truthy, else the second. *)
Definition or {A} `{Truthy A} (a b : A) : A := if truthy a then a else b.

(** [a ?? b] with [b = null]. *)
Definition coalesce_null {A} (a : nullable A) : nullable A :=
  match a with undefined => null | _ => a end.

(** [`${x}`] inside a template literal.  A number is written in decimal,
    as JavaScript writes the integers below 10^21. *)
Class ToString (A : Type) := toString : A → string.

#[global] Instance toString_string : ToString string := λ s, s.
#[global] Instance toString_number : ToString Z := λ n, pretty n.
#[global] Instance toString_nullable {A} `{ToString A} : ToString (nullable A) :=
  λ x, match x with
       | undefined => "undefined"
       | null => "null"
       | value a => toString a
       end.

(** [s.includes(needle)] *)
Fixpoint includes (needle s : string) : bool :=
  String.prefix needle s ||
  match s with
  | EmptyString => false
  | String _ s' => includes needle s'
  end.

(** *** [parseInt(s, 10)]

    Leading white space is skipped, one sign is read, then the longest run
    of decimal digits; no digit at all gives [NaN], which is [None] here.
    The value is exact below 2^53, where identifiers of posts live. *)

Definition is_space (c : ascii) : bool :=
  let n := nat_of_ascii c in
  ((9 <=? n) && (n <=? 13) || (n =? 32))%nat.

Fixpoint trim_start (s : string) : string :=
  match s with
  | String c s' => if is_space c then trim_start s' else s
  | EmptyString => EmptyString
  end.

Definition digit_of (c : ascii) : option Z :=
  let n := nat_of_ascii c in
  if ((48 <=? n) && (n <=? 57))%nat then Some (Z.of_nat n - 48) else None.

Fixpoint digits (s : string) (acc : option Z) : option Z :=
  match s with
  | EmptyString => acc
  | String c s' =>
      match digit_of c with
      | Some d => digits s' (Some (10 * default 0 acc + d))
      | None => acc
      end
  end.

Definition parseInt (s : string) : option Z :=
  match trim_start s with
  | String "-" s' => Z.opp <$> digits s' None
  | String "+" s' => digits s' None
  | s' => digits s' None
  end.

(** [x === n] for a number [n]. *)
Definition strictEq (x : nullable Z) (n : Z) : bool :=
  match x with value m => m =? n | _ => false end.

(** [a <= b] on numbers: false as soon as one side is [NaN]. *)
Definition le (a b : option Z) : bool :=
  match a, b with
  | Some x, Some y => x <=? y
  | _, _ => false
  end.

(** *** [Date]

    A date is its time value in milliseconds since the epoch.
    [toISOString] throws a [RangeError] outside of ±8.64e15 ms; inside, the
    calendar date comes from the count of days (proleptic Gregorian
    calendar), and years outside of 0..9999 are written with a sign and six
    digits. *)

Definition Date := Z.

Definition civil_from_days (days : Z) : Z * Z * Z :=
  let z := days + 719468 in
  let era := z `div` 146097 in
  let doe := z - era * 146097 in
  let yoe := (doe - doe `div` 1460 + doe `div` 36524 - doe `div` 146096) `div` 365 in
  let doy := doe - (365 * yoe + yoe `div` 4 - yoe `div` 100) in
  let mp := (5 * doy + 2) `div` 153 in
  let d := doy - (153 * mp + 2) `div` 5 + 1 in
  let m := if mp <? 10 then mp + 3 else mp - 9 in
  let y := yoe + era * 400 + (if m <=? 2 then 1 else 0) in
  (y, m, d).

Fixpoint zeros (n : nat) : string :=
  match n with
  | O => EmptyString
  | S n' => String "0" (zeros n')
  end.

(** [s.padStart(width, "0")] *)
Definition pad (width : nat) (s : string) : string :=
  zeros (width - String.length s) +:+ s.

Definition iso_year (y : Z) : string :=
  if (0 <=? y) && (y <=? 9999) then pad 4 (pretty y)
  else (if y <? 0 then "-" else "+") +:+ pad 6 (pretty (Z.abs y)).

(** [d.toISOString().split("T")[0]]; [None] when [toISOString] throws. *)
Definition toISODate (d : Date) : option string :=
  if Z.abs d <=? 8640000000000000 then
    let '(y, m, day) := civil_from_days (d `div` 86400000) in
    Some (iso_year y +:+ "-" +:+ pad 2 (pretty m) +:+ "-" +:+ pad 2 (pretty day))
  else None.

(** A promise settled: resolved with a value or rejected with an [Error]
    whose [message] is kept. *)
Inductive Outcome (A : Type) : Type :=
| Return (a : A)
| Throw (message : string).
Arguments Return {A} a.
Arguments Throw {A} message.

End JS.

Import JS.

(** ** [types.ts] *)

Record LeetCodePost := {
  id : string;
  title : string;
  content : string;
  vote_count : Z;
  comment_count : Z;
  view_count : Z;
  creation_date : Date;
}.

(** ** The offer a model reply is validated against ([ParsedOfferSchema]) *)

Inductive Visa := yes | no.

#[global] Instance truthy_visa : Truthy Visa := λ _, true.

Module Schema.

(** Every field is [.nullable().optional()]. *)
Record ParsedOffer := {
  company : nullable string;
  role : nullable string;
  yoe : nullable Z;
  base_offer : nullable Z;
  total_offer : nullable Z;
  location : nullable string;
  visa_sponsorship : nullable Visa;
}.

(** [isValidOffer], the same text in both packages. *)
Definition isValidOffer (offer : ParsedOffer) : bool :=
  let hasCompany := truthy (company offer) in
  let hasCompensation := truthy (or (base_offer offer) (total_offer offer)) in
  hasCompany || hasCompensation.

(** What the text of a reply turns into on its way through
    [parseJsonMarkdown] and [ParsedContentSchema.safeParse]. *)
Inductive Reply :=
| NoJson                                (* no fenced block, unparsable, or a falsy JSON value *)
| SchemaMismatch                        (* [validationResult.success] is false *)
| OfferArray (data : list ParsedOffer). (* [validationResult.data] *)

(** The tail of the [try] block of [parsePost], from [parsedJson] on. *)
Definition validOffers (r : Reply) : nullable (list ParsedOffer) :=
  match r with
  | NoJson => null
  | SchemaMismatch => null
  | OfferArray data =>
      let validOffers := List.filter isValidOffer data in
      if (length validOffers =? 0)%nat then null else value validOffers
  end.

End Schema.

(** ** [refresh.ts]: the forum client *)

Module Refresh.

(** One element of [data.categoryTopicList.edges], flattened. *)
Record Edge := {
  node_id : string;
  node_title : string;
  voteCount : Z;
  creationDate : Z;
  commentCount : Z;
  viewCount : Z;
}.

(** The answer to the listing query at a given [skip]: the request fails,
    or [data.data?.categoryTopicList?.edges] is read off the answer. *)
Inductive Listing :=
| ListingFails (message : string)
| Edges (posts : nullable (list Edge)).

Record Scan := {
  yielded : list LeetCodePost;
  totalFetched : Z;
  postsProcessed : Z;
  foundLastPost : bool;
}.

Section Generator.

Variable lastPostId : nullable string.
Variable maxPosts : Z.
(** The forum: the listing by [skip], and [data.data?.topic?.post?.content]
    by topic id ([None] is [NaN]); a failed request is [undefined]. *)
Variable listing : Z → Listing.
Variable topic : option Z → nullable string.

Definition first : Z := 50.

Definition getPostContent (postId : option Z) : Outcome string :=
  match topic postId with
  | value c => if truthy c then Return c else Throw "Failed to fetch content"
  | _ => Throw "Failed to fetch content"
  end.

Definition reachedLastPost (post : Edge) : bool :=
  match lastPostId with
  | value last =>
      truthy last && le (parseInt (node_id post)) (parseInt last)
  | _ => false
  end.

(** The [for (const post of posts)] loop of one page. *)
Fixpoint scan (posts : list Edge) (totalFetched postsProcessed : Z) : Scan :=
  match posts with
  | [] => Build_Scan [] totalFetched postsProcessed false
  | post :: rest =>
      if totalFetched >=? maxPosts then
        Build_Scan [] totalFetched postsProcessed false
      else if reachedLastPost post then
        Build_Scan [] totalFetched postsProcessed true
      else
        match getPostContent (parseInt (node_id post)) with
        | Return content =>
            let r := scan rest (totalFetched + 1) (postsProcessed + 1) in
            Build_Scan
              ({| id := node_id post;
                  title := node_title post;
                  content := content;
                  vote_count := voteCount post;
                  comment_count := commentCount post;
                  view_count := viewCount post;
                  creation_date := creationDate post * 1000 |}
               :: yielded r)
              (Refresh.totalFetched r) (Refresh.postsProcessed r) (foundLastPost r)
        | Throw _ => scan rest totalFetched postsProcessed
        end
  end.

(** The [while] loop; one unit of fuel per page requested.  The pause
    every fourth page changes no value and is left out. *)
Fixpoint pages (fuel : nat) (skip totalFetched : Z) (foundLastPost : bool)
  : option (list LeetCodePost * Outcome ()) :=
  if negb ((totalFetched <? maxPosts) && negb foundLastPost) then
    Some ([], Return ())
  else
    match fuel with
    | O => None
    | S fuel' =>
        match listing skip with
        | ListingFails message => Some ([], Throw message)
        | Edges (value (p :: ps)) =>
            let originalPostCount := Z.of_nat (length (p :: ps)) in
            let posts := if skip =? 0 then ps else p :: ps in
            let r := scan posts totalFetched 0 in
            if (originalPostCount <? first)
               || ((postsProcessed r =? 0) && (originalPostCount >? 0))
            then Some (yielded r, Return ())
            else
              match pages fuel' (skip + first) (Refresh.totalFetched r)
                      (Refresh.foundLastPost r) with
              | Some (more, outcome) => Some (yielded r ++ more, outcome)
              | None => None
              end
        | Edges _ => Some ([], Return ())
        end
    end.

(** Every page that lets the loop go on admits a post, so [maxPosts]
    pages are enough (see [getLatestPosts_terminates]). *)
Definition getLatestPosts_fuel : option (list LeetCodePost * Outcome ()) :=
  pages (Z.to_nat maxPosts) 0 0 false.

Definition getLatestPosts : list LeetCodePost * Outcome () :=
  default ([], Return ()) getLatestPosts_fuel.

End Generator.

End Refresh.

(** ** The extraction clients *)

(** The argument of [sleep], in milliseconds: an exact count, or the
    floating-point value [parseFloat(retryDelay.replace("s", "")) * 1000]
    that the server's [retryDelay] stands for, kept as that text. *)
Inductive Millis :=
| Exact (ms : Z)
| OfRetryDelay (retryDelay : string).

Inductive Event :=
| ModelCall (retryCount : nat)
| Sleep (delay : Millis).

Definition Extraction : Type :=
  list Event * Outcome (nullable (list Schema.ParsedOffer)).

Definition QUOTA_EXCEEDED : string := "QUOTA_EXCEEDED".

(** *** [packages/leetcomp/src/parse.ts], on the Gemini SDK *)

Module Gemini.

Record ErrorDetail := {
  type_url : string;                (* [detail["@type"]] *)
  retryDelay : nullable string;
}.

(** What [generateContent] throws. *)
Record ApiError := {
  status : nullable Z;
  errorDetails : nullable (list ErrorDetail);
  message : nullable string;
}.

(** One call of the model: it throws, or its text goes through
    validation. *)
Inductive Generation :=
| Fails (error : ApiError)
| Text (reply : Schema.Reply).

Definition RetryInfo : string := "type.googleapis.com/google.rpc.RetryInfo".
Definition QuotaFailure : string := "type.googleapis.com/google.rpc.QuotaFailure".

(** [error.errorDetails?.find((detail) => detail["@type"] === type)] *)
Definition findDetail (error : ApiError) (type : string) : nullable ErrorDetail :=
  match errorDetails error with
  | value details =>
      match List.find (λ detail, String.eqb (type_url detail) type) details with
      | Some detail => value detail
      | None => undefined
      end
  | _ => undefined
  end.

#[global] Instance truthy_detail : Truthy ErrorDetail := λ _, true.

Definition delayOf (error : ApiError) (retryCount : nat) : Millis :=
  let retryDelay :=
    match findDetail error RetryInfo with
    | value detail => retryDelay detail
    | _ => undefined
    end in
  match retryDelay with
  | value s => if truthy s then OfRetryDelay s
               else Exact (2 ^ Z.of_nat retryCount * 2 * 1000)
  | _ => Exact (2 ^ Z.of_nat retryCount * 2 * 1000)
  end.

Section Client.

(** [process.env.GEMINI_API_KEY], read by [getModel], and the model's
    answer to the attempt made with a given [retryCount]. *)
Variable apiKey : nullable string.
Variable model : nat → Generation.

Fixpoint parsePost_fuel (fuel : nat) (retryCount : nat) : option Extraction :=
  match fuel with
  | O => None
  | S fuel' =>
      if negb (truthy apiKey) then Some ([], Return null) else
      match model retryCount with
      | Text reply =>
          Some ([ModelCall retryCount], Return (Schema.validOffers reply))
      | Fails error =>
          if strictEq (status error) 429 then
            let delay := delayOf error retryCount in
            let quotaFailure := findDetail error QuotaFailure in
            if truthy quotaFailure && (retryCount =? 0)%nat then
              Some ([ModelCall retryCount], Throw QUOTA_EXCEEDED)
            else if (retryCount <? 3)%nat then
              match parsePost_fuel fuel' (retryCount + 1)%nat with
              | Some (events, outcome) =>
                  Some (ModelCall retryCount :: Sleep delay :: events, outcome)
              | None => None
              end
            else Some ([ModelCall retryCount], Return null)
          else Some ([ModelCall retryCount], Return null)
      end
  end.

(** [parsePost(post)]: [retryCount] starts at 0 and four attempts are
    the most there can be (see [Gemini_parsePost_total]). *)
Definition parsePost : option Extraction := parsePost_fuel 4 0.

End Client.

End Gemini.

(** *** [packages/leetoffer/src/parse.ts], on the Perplexity HTTP API *)

Module Perplexity.

(** The body of an answer that is not [ok]: its text, and when the text
    is JSON the two fields the code reads, [error.message] and
    [message]. *)
Record ErrorBody := {
  errorText : string;
  json : option (nullable string * nullable string);
}.

(** One round of the [try] block. *)
Inductive Completion :=
| FetchRejects (message : string)
| NotOk (status : Z) (body : ErrorBody)
| BodyUnreadable (message : string)      (* [response.json()] throws *)
| NoChoices
| EmptyContent
| Content (reply : Schema.Reply).

(** An [Error] object with the two extra properties the handler reads. *)
Record Error := {
  message : string;
  status : nullable Z;
  errorDetails : nullable (nullable string);   (* [errorDetails.error?.message] *)
}.

Definition API_KEY_REQUIRED : string :=
  "PERPLEXITY_API_KEY environment variable is required. Please set it in your .env file.".

Definition API_KEY_INVALID : string :=
  "Invalid API key: API key is missing or too short".

(** [new Error(message)]: neither [status] nor [errorDetails] is set. *)
Definition new_Error (message : string) : Error :=
  {| message := message; status := undefined; errorDetails := undefined |}.

Definition errorMsg (status : Z) (body : ErrorBody) : string :=
  let '(error_message, message) :=
    match json body with
    | Some fields => fields
    | None => (undefined, value (or (errorText body) ("HTTP " +:+ pretty status)))
    end in
  match or error_message message with
  | value m => if truthy m then m
               else "HTTP " +:+ pretty status +:+ ": " +:+ String.substring 0 100 (errorText body)
  | _ => "HTTP " +:+ pretty status +:+ ": " +:+ String.substring 0 100 (errorText body)
  end.

Section Client.

Variable apiKey : nullable string.   (* [process.env.PERPLEXITY_API_KEY] *)
Variable api : nat → Completion.

(** The [try] block: a value returned, or the [Error] thrown, and
    whether the request went out. *)
Definition attempt (retryCount : nat)
  : list Event * (nullable (list Schema.ParsedOffer) + Error) :=
  match apiKey with
  | value key =>
      if negb (truthy key) then
        ([], inr (new_Error API_KEY_REQUIRED))
      else if (String.length key <? 10)%nat then
        ([], inr (new_Error API_KEY_INVALID))
      else
        ([ModelCall retryCount],
         match api retryCount with
         | FetchRejects message => inr (new_Error ("Network error: " +:+ message))
         | NotOk status body => inr (new_Error (errorMsg status body))
         | BodyUnreadable message =>
             inr (new_Error ("Failed to parse API response: " +:+ message))
         | NoChoices => inl null
         | EmptyContent => inl null
         | Content reply => inl (Schema.validOffers reply)
         end)
  | _ =>
      ([], inr (new_Error API_KEY_REQUIRED))
  end.

Definition looksLikeQuota (errorObj : Error) : bool :=
  let errorMessage :=
    match errorDetails errorObj with
    | value (value m) => if truthy m then m else message errorObj
    | _ => message errorObj
    end in
  includes "quota" errorMessage || includes "limit" errorMessage
  || includes "rate limit" errorMessage.

Fixpoint parsePost_fuel (fuel : nat) (retryCount : nat) : option Extraction :=
  match fuel with
  | O => None
  | S fuel' =>
      match attempt retryCount with
      | (events, inl offers) => Some (events, Return offers)
      | (events, inr errorObj) =>
          if strictEq (status errorObj) 429 then
            let delaySeconds := 2 ^ Z.of_nat retryCount * 2 in
            if looksLikeQuota errorObj && (retryCount =? 0)%nat then
              Some (events, Throw QUOTA_EXCEEDED)
            else if (retryCount <? 3)%nat then
              match parsePost_fuel fuel' (retryCount + 1)%nat with
              | Some (more, outcome) =>
                  Some (events ++ Sleep (Exact (delaySeconds * 1000)) :: more, outcome)
              | None => None
              end
            else Some (events, Return null)
          else Some (events, Return null)
      end
  end.

Definition parsePost : option Extraction := parsePost_fuel 4 0.

End Client.

End Perplexity.

(** ** [packages/leetoffer/src/index.ts]: the store and the orchestrator *)

Module Index.

(** [interface ParsedOffer]: the offer of the dataset, with the post it
    comes from.  A field missing from the file read back is [undefined]. *)
Record ParsedOffer := {
  company : nullable string;
  role : nullable string;
  yoe : nullable Z;
  base_offer : nullable Z;
  total_offer : nullable Z;
  location : nullable string;
  visa_sponsorship : nullable Visa;
  post_id : nullable string;
  post_title : nullable string;
  post_date : nullable string;
  post_timestamp : nullable Z;
}.

(** [`${offer.company}-${offer.role}-${offer.total_offer}-${offer.post_id}`] *)
Definition offerKey (offer : ParsedOffer) : string :=
  toString (company offer) +:+ "-" +:+ toString (role offer) +:+ "-"
  +:+ toString (total_offer offer) +:+ "-" +:+ toString (post_id offer).

(** The merge, written twice in the source with the same text: at the end
    of [run] and in [saveOnExit]. *)
Definition existingOfferKeys (existingOffers : list ParsedOffer) : gset string :=
  list_to_set (offerKey <$> existingOffers).

Definition uniqueNewOffers (existingOffers newParsedOffers : list ParsedOffer)
  : list ParsedOffer :=
  filter (λ offer, offerKey offer ∉ existingOfferKeys existingOffers) newParsedOffers.

Definition allOffers (existingOffers newParsedOffers : list ParsedOffer)
  : list ParsedOffer :=
  existingOffers ++ uniqueNewOffers existingOffers newParsedOffers.

(** *** The store *)

Record Metadata := {
  lastPostId : nullable string;
  lastFetchTime : nullable Z;
  totalOffers : nullable Z;
}.

(** A file by what [JSON.parse] of it gives: an array of offers, an object
    with the fields of the metadata, or an exception. *)
Inductive File :=
| OffersFile (offers : list ParsedOffer)
| MetadataFile (metadata : Metadata)
| Garbage.

(** The local files by path and the files of the gist by name. *)
Record Disk := {
  files : gmap string File;
  gist : gmap string File;
}.

(** What the environment holds and how the outside answers during one
    run. *)
Record Env := {
  outputPath : string;
  metadataPath : string;
  GIST_ID : bool;
  GITHUB_TOKEN : bool;
  writable : string → bool;     (* [mkdir] and [writeFile] go through *)
  gistOk : bool;                (* GET of the gist answers [ok] *)
  userOk : bool;                (* GET of the user answers [ok] *)
  tokenOwnsGist : bool;         (* [tokenOwner === gistOwner] *)
  gistScope : bool;             (* [scopes.includes('gist')] *)
  patchOk : bool;               (* PATCH of the offers answers [ok] *)
  metadataPatchOk : bool;       (* PATCH of the metadata is applied *)
  now : Z;                      (* [Date.now()] *)
}.

Definition parsed_comps : string := "parsed_comps.json".
Definition leetoffer_metadata : string := ".leetoffer_metadata.json".

Definition readOffers (f : option File) : option (list ParsedOffer) :=
  match f with
  | Some (OffersFile offers) => Some offers
  | _ => None
  end.

Definition readMetadata (f : option File) : option Metadata :=
  match f with
  | Some (MetadataFile metadata) => Some metadata
  | _ => None
  end.

(** What [JSON.parse] leaves in [existingOffers]: the array of a dataset
    file, or the object of a file that holds something else.  An object has
    no [length], so [existingOffers.length === 0] is false of it. *)
Inductive Dataset :=
| Array (offers : list ParsedOffer)
| Object.

Definition isEmpty (existingOffers : Dataset) : bool :=
  match existingOffers with
  | Array offers => (length offers =? 0)%nat
  | Object => false
  end.

(** [loadExistingData], with [existingOffers] as [JSON.parse] leaves it. *)
Definition loadExistingDataset (env : Env) (disk : Disk)
  : Dataset * nullable string * nullable Z :=
  let existingOffers :=
    match files disk !! outputPath env with
    | Some (OffersFile offers) => Array offers
    | Some (MetadataFile _) => Object
    | Some Garbage => Array []                  (* an exception, caught *)
    | None => Array []
    end in
  let fromGist (existingOffers : Dataset) :=
    match readMetadata (gist disk !! leetoffer_metadata) with
    | Some metadata =>
        (existingOffers, Index.lastPostId metadata, Index.lastFetchTime metadata)
    | None => (existingOffers, undefined, undefined)
    end in
  let '(existingOffers, lastPostId, lastFetchTime) :=
    if isEmpty existingOffers && GIST_ID env && gistOk env then
      match gist disk !! parsed_comps with
      | Some (OffersFile offers) => fromGist (Array offers)
      | Some (MetadataFile _) => fromGist Object
      | Some Garbage => (existingOffers, undefined, undefined)   (* an exception, caught *)
      | None => fromGist existingOffers
      end
    else (existingOffers, undefined, undefined) in
  if negb (truthy lastPostId) then
    match files disk !! metadataPath env with
    | Some (MetadataFile metadata) =>
        (existingOffers, Index.lastPostId metadata, Index.lastFetchTime metadata)
    | Some (OffersFile _) =>                    (* an array has neither property *)
        (existingOffers, undefined, undefined)
    | Some Garbage => (existingOffers, lastPostId, lastFetchTime)   (* an exception, caught *)
    | None => (existingOffers, lastPostId, lastFetchTime)
    end
  else (existingOffers, lastPostId, lastFetchTime).

(** [existingOffers] is declared [ParsedOffer[]] and [run] takes it as
    such.  An object has no offers to give; the source hands it on as it
    is, and [run] then rejects at the merge (see [rejects]). *)
Definition offersOf (existingOffers : Dataset) : list ParsedOffer :=
  match existingOffers with
  | Array offers => offers
  | Object => []
  end.

(** [loadExistingData], with [existingOffers] at its declared type. *)
Definition loadExistingData (env : Env) (disk : Disk)
  : list ParsedOffer * nullable string * nullable Z :=
  let '(existingOffers, lastPostId, lastFetchTime) := loadExistingDataset env disk in
  (offersOf existingOffers, lastPostId, lastFetchTime).

Definition writeFile (path : string) (f : File) (disk : Disk) : Disk :=
  {| files := <[path := f]> (files disk); gist := gist disk |}.

Definition patchGist (name : string) (f : File) (disk : Disk) : Disk :=
  {| files := files disk; gist := <[name := f]> (gist disk) |}.

(** The PATCH of the offers names every other file of the gist with
    [null], which the gist API reads as a deletion. *)
Definition patchOffers (f : File) (disk : Disk) : Disk :=
  {| files := files disk; gist := {[parsed_comps := f]} |}.

Definition saveData (env : Env) (allOffers : list ParsedOffer)
    (lastFetchedPostId : nullable string) (disk : Disk) : Disk :=
  (* the offers, to the local file: a failure is logged and swallowed *)
  let disk :=
    if writable env (outputPath env)
    then writeFile (outputPath env) (OffersFile allOffers) disk
    else disk in
  (* the offers, to the gist: any failure is logged and swallowed *)
  let disk :=
    if GIST_ID env && GITHUB_TOKEN env then
      if gistOk env
         && (if userOk env then tokenOwnsGist env && gistScope env else true)
         && patchOk env
      then patchOffers (OffersFile allOffers) disk
      else disk
    else disk in
  (* the metadata *)
  if truthy lastFetchedPostId then
    let metadata :=
      {| lastPostId := lastFetchedPostId;
         lastFetchTime := value (now env);
         totalOffers := value (Z.of_nat (length allOffers)) |} in
    let disk :=
      if writable env (metadataPath env)
      then writeFile (metadataPath env) (MetadataFile metadata) disk
      else disk in
    if GIST_ID env && GITHUB_TOKEN env && metadataPatchOk env
    then patchGist leetoffer_metadata (MetadataFile metadata) disk
    else disk
  else disk.

(** *** The orchestrator *)

Definition MAX_DAILY_API_CALLS : Z := 240.

Inductive Step :=
| Skipped (post : LeetCodePost)      (* negative votes *)
| Waited (ms : Z)                    (* [setTimeout] *)
| Extracted (post : LeetCodePost).   (* [parsePost(post)] *)

(** The variables of [run] that the loop updates, and what it did. *)
Record State := {
  newParsedOffers : list ParsedOffer;
  processedCount : Z;
  successCount : Z;
  lastFetchedPostId : nullable string;
  apiCallCount : Z;
  trace : list Step;
}.

Definition initial : State :=
  {| newParsedOffers := []; processedCount := 0; successCount := 0;
     lastFetchedPostId := undefined; apiCallCount := 0; trace := [] |}.

(** The posts [parsePost] was called on, in order. *)
Definition extractionCalls (s : State) : list LeetCodePost :=
  omap (λ step, match step with Extracted post => Some post | _ => None end) (trace s).

Definition withMetadata (post : LeetCodePost) (postDate : string)
    (offer : Schema.ParsedOffer) : ParsedOffer :=
  {| company := coalesce_null (Schema.company offer);
     role := coalesce_null (Schema.role offer);
     yoe := coalesce_null (Schema.yoe offer);
     base_offer := coalesce_null (Schema.base_offer offer);
     total_offer := coalesce_null (Schema.total_offer offer);
     location := coalesce_null (Schema.location offer);
     visa_sponsorship := coalesce_null (Schema.visa_sponsorship offer);
     post_id := value (id post);
     post_title := value (title post);
     post_date := value postDate;
     post_timestamp := value (creation_date post) |}.

Section Loop.

(** The extraction client and the model behind it: what the call
    numbered [apiCallCount] settles to. *)
Variable parsePost : Z → LeetCodePost → Outcome (nullable (list Schema.ParsedOffer)).

Definition begin (post : LeetCodePost) (s : State) : State :=
  {| newParsedOffers := newParsedOffers s;
     processedCount := processedCount s + 1;
     successCount := successCount s;
     lastFetchedPostId := value (id post);
     apiCallCount := apiCallCount s;
     trace := trace s |}.

Definition log (step : Step) (s : State) : State :=
  {| newParsedOffers := newParsedOffers s;
     processedCount := processedCount s;
     successCount := successCount s;
     lastFetchedPostId := lastFetchedPostId s;
     apiCallCount := apiCallCount s;
     trace := trace s ++ [step] |}.

Definition pause (s : State) : State :=
  if (apiCallCount s >? 0) && (apiCallCount s `mod` 10 =? 0) then log (Waited 2000) s
  else if apiCallCount s >? 0 then log (Waited 500) s
  else s.

Definition call (post : LeetCodePost) (s : State) : State :=
  {| newParsedOffers := newParsedOffers s;
     processedCount := processedCount s;
     successCount := successCount s;
     lastFetchedPostId := lastFetchedPostId s;
     apiCallCount := apiCallCount s + 1;
     trace := trace s ++ [Extracted post] |}.

Definition success (s : State) : State :=
  {| newParsedOffers := newParsedOffers s;
     processedCount := processedCount s;
     successCount := successCount s + 1;
     lastFetchedPostId := lastFetchedPostId s;
     apiCallCount := apiCallCount s;
     trace := trace s |}.

Definition push (offers : list ParsedOffer) (s : State) : State :=
  {| newParsedOffers := newParsedOffers s ++ offers;
     processedCount := processedCount s;
     successCount := successCount s;
     lastFetchedPostId := lastFetchedPostId s;
     apiCallCount := apiCallCount s;
     trace := trace s |}.

(** The body of [for await (const post of getLatestPosts(...))]. *)
Fixpoint loop (posts : list LeetCodePost) (s : State) : State :=
  match posts with
  | [] => s
  | post :: rest =>
      if apiCallCount s >=? MAX_DAILY_API_CALLS then s
      else
        let s := begin post s in
        if vote_count post <? 0 then loop rest (log (Skipped post) s)
        else
          let s := pause s in
          let n := apiCallCount s in
          let s := call post s in
          match parsePost n post with
          | Return (value (offer :: offers)) =>
              let s := success s in
              match toISODate (creation_date post) with
              | Some postDate =>
                  loop rest (push (withMetadata post postDate <$> offer :: offers) s)
              | None => loop rest s        (* a [RangeError], caught *)
              end
          | Return _ => loop rest s
          | Throw message =>
              if String.eqb message QUOTA_EXCEEDED then s else loop rest s
          end
  end.

End Loop.

Record Result := {
  processed : Z;
  successful : Z;
  totalOffersCount : Z;
  newOffers : Z;
  resultPath : string;
}.

(** The merge and the save that end a run, from the state the loop is
    in. *)
Definition finish (env : Env) (existingOffers : list ParsedOffer) (s : State)
    (disk : Disk) : Result * Disk :=
  let all := allOffers existingOffers (newParsedOffers s) in
  ({| processed := processedCount s;
      successful := successCount s;
      totalOffersCount := Z.of_nat (length all);
      newOffers := Z.of_nat (length (uniqueNewOffers existingOffers (newParsedOffers s)));
      resultPath := outputPath env |},
   saveData env all (lastFetchedPostId s) disk).

(** [saveOnExit], run by SIGINT or SIGTERM while the loop is in state
    [s]: the same merge and the same save, then the process exits. *)
Definition saveOnExit (env : Env) (existingOffers : list ParsedOffer) (s : State)
    (disk : Disk) : Disk :=
  saveData env (allOffers existingOffers (newParsedOffers s)) (lastFetchedPostId s) disk.

Section Run.

Variable env : Env.
Variable listing : Z → Refresh.Listing.
Variable topic : option Z → nullable string.
Variable parsePost : Z → LeetCodePost → Outcome (nullable (list Schema.ParsedOffer)).

(** The posts the generator hands to the loop; when it throws, the
    outer [catch] logs and the run goes on to the save. *)
Definition fetched (lastPostId : nullable string) : list LeetCodePost :=
  let isIncremental := truthy lastPostId in
  (Refresh.getLatestPosts lastPostId (if isIncremental then 500 else 2000)
     listing topic).1.

(** The merge reads [existingOffers.map], which an object does not have:
    the promise of [run] is then rejected, after the loop and before
    anything is saved. *)
Definition rejects (disk : Disk) : bool :=
  match (loadExistingDataset env disk).1.1 with
  | Array _ => false
  | Object => true
  end.

(** [run], when it does not reject. *)
Definition run (disk : Disk) : Result * Disk :=
  let '(existingOffers, lastPostId, _) := loadExistingData env disk in
  finish env existingOffers (loop parsePost (fetched lastPostId) initial) disk.

End Run.

(** [run] with the extraction client of this package. *)
Definition perplexity (apiKey : nullable string) (api : Z → nat → Perplexity.Completion)
    (n : Z) (post : LeetCodePost) : Outcome (nullable (list Schema.ParsedOffer)) :=
  match Perplexity.parsePost apiKey (api n) with
  | Some (_, outcome) => outcome
  | None => Return null
  end.

End Index.

(** ** The cron routes ([app/api/cron/route.ts], one for each package) *)

Module Cron.

(** The two headers the routes read; [headers.get] gives [null] for a
    header that is not sent. *)
Record Request := {
  x_vercel_cron : nullable string;
  authorization : nullable string;
}.

(** [NextResponse.json]: the status and what the body holds. *)
Inductive Response :=
| Json401 (error : string)
| Json200 (result : Index.Result)     (* [success: true], the message, the counts *)
| Json500 (details : string).         (* [error: "Failed to refresh data"] *)

(** The answer, and whether [run()] was called on the way. *)
Record Handled := {
  invoked : bool;
  response : Response;
}.

(** [x === s] for a string [s]. *)
Definition strictEqString (x : nullable string) (s : string) : bool :=
  match x with value y => String.eqb y s | _ => false end.

(** [`Bearer ${cronSecret}`] *)
Definition bearer (cronSecret : nullable string) : string :=
  "Bearer " +:+ toString cronSecret.

Definition refuse (error : string) : Handled :=
  {| invoked := false; response := Json401 error |}.

(** The [try] around [await run()], the same text in both routes; [run] is
    what the call settles to. *)
Definition refresh (run : Outcome Index.Result) : Handled :=
  {| invoked := true;
     response := match run with
                 | Return result => Json200 result
                 | Throw message => Json500 message
                 end |}.

End Cron.

(** The route of [packages/leetcomp]. *)
Module CronLeetcomp.

Definition GET (CRON_SECRET : nullable string) (request : Cron.Request)
    (run : Outcome Index.Result) : Cron.Handled :=
  let authHeader := Cron.authorization request in
  let cronSecret := CRON_SECRET in
  if truthy cronSecret
     && negb (Cron.strictEqString authHeader (Cron.bearer cronSecret))
  then Cron.refuse "Unauthorized"
  else Cron.refresh run.

End CronLeetcomp.

(** The route of [packages/leetoffer]. *)
Module CronLeetoffer.

Definition GET (CRON_SECRET : nullable string) (request : Cron.Request)
    (run : Outcome Index.Result) : Cron.Handled :=
  let vercelCronHeader := Cron.x_vercel_cron request in
  let authHeader := Cron.authorization request in
  let cronSecret := CRON_SECRET in
  let isVercelCron := Cron.strictEqString vercelCronHeader "1" in
  let hasValidSecret :=
    truthy cronSecret && Cron.strictEqString authHeader (Cron.bearer cronSecret) in
  if negb isVercelCron && negb hasValidSecret then
    if truthy cronSecret then
      Cron.refuse "Unauthorized - Missing or invalid CRON_SECRET"
    else if negb isVercelCron then
      Cron.refuse "Unauthorized - Must be called by Vercel cron or with valid CRON_SECRET"
    else Cron.refresh run
  else Cron.refresh run.

End CronLeetoffer.

(** ** What the properties observe *)

Module Observe.

(** The post an edge of the listing is yielded as, when its body can be
    fetched. *)
Definition postOf (topic : option Z → nullable string) (post : Refresh.Edge)
  : option LeetCodePost :=
  match Refresh.getPostContent topic (parseInt (Refresh.node_id post)) with
  | Return content =>
      Some {| id := Refresh.node_id post;
              title := Refresh.node_title post;
              content := content;
              vote_count := Refresh.voteCount post;
              comment_count := Refresh.commentCount post;
              view_count := Refresh.viewCount post;
              creation_date := Refresh.creationDate post * 1000 |}
  | Throw _ => None
  end.

(** The edges that stand before the first one at or below the cursor. *)
Fixpoint beforeCursor (lastPostId : nullable string) (posts : list Refresh.Edge)
  : list Refresh.Edge :=
  match posts with
  | [] => []
  | post :: rest =>
      if Refresh.reachedLastPost lastPostId post then []
      else post :: beforeCursor lastPostId rest
  end.

Definition isModelCall (e : Event) : bool :=
  match e with ModelCall _ => true | Sleep _ => false end.

Definition isSleep (e : Event) : bool :=
  match e with Sleep _ => true | ModelCall _ => false end.

(** The requests sent to the model and the pauses taken. *)
Definition modelCalls (events : list Event) : nat :=
  length (List.filter isModelCall events).

Definition sleeps (events : list Event) : nat :=
  length (List.filter isSleep events).

End Observe.

(** ** Sample inputs, for the instances the properties are applied at *)

Module Sample.

Definition edge (node_id : string) (votes : Z) : Refresh.Edge :=
  {| Refresh.node_id := node_id; Refresh.node_title := "Offer";
     Refresh.voteCount := votes; Refresh.creationDate := 1730505600;
     Refresh.commentCount := 0; Refresh.viewCount := 10 |}.

Definition post (post_id : string) (votes : Z) : LeetCodePost :=
  {| id := post_id; title := "Offer"; content := "body"; vote_count := votes;
     comment_count := 0; view_count := 10; creation_date := 1730505600000 |}.

(** Every body can be fetched but the one of post 106. *)
Definition topic (postId : option Z) : nullable string :=
  match postId with
  | Some 106 => undefined
  | _ => value "body"
  end.

Definition parsed (company : string) (total : Z) : Schema.ParsedOffer :=
  Schema.Build_ParsedOffer (value company) undefined undefined undefined
    (value total) undefined undefined.

Definition offer (company : string) (post_id : string) : Index.ParsedOffer :=
  Index.withMetadata (post post_id 3) "2024-11-02" (parsed company 4500000).

Definition tooManyRequests (details : nullable (list Gemini.ErrorDetail))
  : Gemini.ApiError :=
  {| Gemini.status := value 429; Gemini.errorDetails := details;
     Gemini.message := value "Too Many Requests" |}.

Definition quotaFailure : Gemini.ErrorDetail :=
  {| Gemini.type_url := Gemini.QuotaFailure; Gemini.retryDelay := undefined |}.

Definition retryInfo (delay : string) : Gemini.ErrorDetail :=
  {| Gemini.type_url := Gemini.RetryInfo; Gemini.retryDelay := value delay |}.

(** A local store with nothing configured for the gist. *)
Definition env : Index.Env :=
  {| Index.outputPath := "parsed_comps.json";
     Index.metadataPath := ".leetoffer_metadata.json";
     Index.GIST_ID := false; Index.GITHUB_TOKEN := false;
     Index.writable := λ _, true;
     Index.gistOk := false; Index.userOk := false;
     Index.tokenOwnsGist := false; Index.gistScope := false;
     Index.patchOk := false; Index.metadataPatchOk := false;
     Index.now := 1730509200000 |}.

(** The same paths, with a gist that can be read. *)
Definition envWithGist : Index.Env :=
  {| Index.outputPath := "parsed_comps.json";
     Index.metadataPath := ".leetoffer_metadata.json";
     Index.GIST_ID := true; Index.GITHUB_TOKEN := true;
     Index.writable := λ _, true;
     Index.gistOk := true; Index.userOk := true;
     Index.tokenOwnsGist := true; Index.gistScope := true;
     Index.patchOk := true; Index.metadataPatchOk := true;
     Index.now := 1730509200000 |}.

Definition metadata (lastPostId : string) : Index.Metadata :=
  {| Index.lastPostId := value lastPostId;
     Index.lastFetchTime := value 1730500000000;
     Index.totalOffers := value 1 |}.

Definition empty : Index.Disk := {| Index.files := ∅; Index.gist := ∅ |}.

End Sample.

(** ** The words of the specification

    Predicates that follow the specification's wording, to be compared
    with what the code computes. *)

Module Spec.

(** A field is present when it holds a value, whatever the value. *)
Definition present {A} (x : nullable A) : Prop :=
  match x with value _ => True | _ => False end.

(** "It has a company name OR at least one of base/total compensation
    present." *)
Definition hasCompanyOrCompensation (offer : Schema.ParsedOffer) : Prop :=
  present (Schema.company offer)
  ∨ present (Schema.base_offer offer) ∨ present (Schema.total_offer offer).

(** "Two offers with identical values on all four fields." *)
Definition sameKeyFields (a b : Index.ParsedOffer) : Prop :=
  Index.company a = Index.company b ∧ Index.role a = Index.role b
  ∧ Index.total_offer a = Index.total_offer b ∧ Index.post_id a = Index.post_id b.

(** "The merged Dataset never contains two offers equal on that key." *)
Definition uniqueOnKey (dataset : list Index.ParsedOffer) : Prop :=
  ∀ i j a b, i ≠ j → dataset !! i = Some a → dataset !! j = Some b →
             ¬ sameKeyFields a b.

(** The highest numeric id among posts. *)
Definition highestId (posts : list LeetCodePost) : option Z :=
  foldr (λ post acc,
           match parseInt (id post), acc with
           | Some n, Some m => Some (Z.max n m)
           | Some n, None => Some n
           | None, _ => acc
           end) None posts.

(** What a stretch of the loop spends: the extraction calls it adds, one
    unit of the counter each, all of them on posts of the stream with a
    vote count that is not negative. *)
Definition spends (posts : list LeetCodePost) (s s' : Index.State) : Prop :=
  ∃ new,
    Index.extractionCalls s' = Index.extractionCalls s ++ new
    ∧ Index.apiCallCount s' = Index.apiCallCount s + Z.of_nat (length new)
    ∧ ∀ post, post ∈ new → post ∈ posts ∧ 0 ≤ vote_count post.

End Spec.

(** * Properties *)

(** ** Truthiness *)

Section Truthiness.

Lemma truthy_string_iff (s : string) : truthy s = true ↔ s ≠ "".
Proof. destruct s; unfold truthy, truthy_string; split; intros; congruence. Qed.

Lemma truthy_number_iff (n : Z) : truthy n = true ↔ n ≠ 0.
Proof. unfold truthy, truthy_number. by rewrite negb_true_iff, Z.eqb_neq. Qed.

Lemma truthy_nullable_string (x : nullable string) : truthy x = true ↔ nonEmpty x.
Proof.
  destruct x as [| |s]; unfold nonEmpty.
  1,2: split; [discriminate | intros (s & ? & _); discriminate].
  change (truthy (value s)) with (truthy s). rewrite truthy_string_iff.
  split; [eauto | intros (s' & [= ->] & ?); done].
Qed.

Lemma truthy_nullable_number (x : nullable Z) : truthy x = true ↔ nonZero x.
Proof.
  destruct x as [| |n]; unfold nonZero.
  1,2: split; [discriminate | intros (s & ? & _); discriminate].
  change (truthy (value n)) with (truthy n). rewrite truthy_number_iff.
  split; [eauto | intros (s' & [= ->] & ?); done].
Qed.

Lemma truthy_or {A} `{Truthy A} (a b : A) : truthy (or a b) = truthy a || truthy b.
Proof. unfold or. by destruct (truthy a) eqn:E; simpl. Qed.

End Truthiness.

(** ** The validity filter *)

Lemma isValidOffer_truthy offer :
  Schema.isValidOffer offer = true ↔
  nonEmpty (Schema.company offer)
  ∨ nonZero (Schema.base_offer offer) ∨ nonZero (Schema.total_offer offer).
Proof.
  unfold Schema.isValidOffer. rewrite truthy_or, !orb_true_iff.
  by rewrite truthy_nullable_string, !truthy_nullable_number.
Qed.

(** What [parsePost] hands on is never empty, comes from the reply, and has
    passed the filter. *)
Lemma validOffers_valid reply offers :
  Schema.validOffers reply = value offers →
  offers ≠ [] ∧ ∀ offer, offer ∈ offers → Schema.isValidOffer offer = true.
Proof.
  destruct reply as [| |data]; simpl; try discriminate.
  destruct (List.filter Schema.isValidOffer data) as [|o l] eqn:E; simpl; [discriminate|].
  intros [= <-]. split; [done|]. intros offer Hin.
  rewrite <- E in Hin. by apply list_elem_of_In, filter_In in Hin as [_ ?].
Qed.

(** C10: an offer whose company is the empty string and whose base and total
    compensation are 0 has the three fields present, and is rejected, as the
    same offer with the three fields [null] is; a reply made of such an
    offer gives "no offers". *)
Theorem C10_falsy_fields_are_absent role yoe location visa :
  let offer :=
    Schema.Build_ParsedOffer (value "") role yoe (value 0) (value 0) location visa in
  let absent := Schema.Build_ParsedOffer null role yoe null null location visa in
  (Spec.present (Schema.company offer) ∧ Spec.present (Schema.base_offer offer)
   ∧ Spec.present (Schema.total_offer offer))
  ∧ Schema.isValidOffer offer = false
  ∧ Schema.isValidOffer offer = Schema.isValidOffer absent
  ∧ Schema.validOffers (Schema.OfferArray [offer]) = null.
Proof. by repeat split. Qed.

(** ** The merge *)

Lemma sameKeyFields_offerKey a b :
  Spec.sameKeyFields a b → Index.offerKey a = Index.offerKey b.
Proof.
  intros (Hc & Hr & Ht & Hp). unfold Index.offerKey. by rewrite Hc, Hr, Ht, Hp.
Qed.

Lemma elem_of_existingOfferKeys key existingOffers :
  key ∈ Index.existingOfferKeys existingOffers ↔
  ∃ e, e ∈ existingOffers ∧ Index.offerKey e = key.
Proof.
  unfold Index.existingOfferKeys. rewrite elem_of_list_to_set, list_elem_of_fmap.
  split; intros (e & H1 & H2); exists e; auto.
Qed.

Lemma elem_of_uniqueNewOffers offer existingOffers newParsedOffers :
  offer ∈ Index.uniqueNewOffers existingOffers newParsedOffers ↔
  offer ∈ newParsedOffers
  ∧ ∀ e, e ∈ existingOffers → Index.offerKey e ≠ Index.offerKey offer.
Proof.
  unfold Index.uniqueNewOffers. rewrite list_elem_of_filter, elem_of_existingOfferKeys.
  split; intros [Hkey Hin]; split; auto.
  - intros e He Heq. apply Hkey. eauto.
  - intros (e & He & Heq). by apply (Hin e).
Qed.

Lemma uniqueNewOffers_sublist existingOffers newParsedOffers :
  Index.uniqueNewOffers existingOffers newParsedOffers `sublist_of` newParsedOffers.
Proof. apply sublist_filter. Qed.

(** The filter, offer by offer: a new offer is kept exactly when its key is
    the key of no loaded offer, each time it occurs. *)
Lemma uniqueNewOffers_filter existingOffers newParsedOffers :
  Index.uniqueNewOffers existingOffers newParsedOffers
  = List.filter
      (λ offer,
         negb (existsb (λ e, String.eqb (Index.offerKey e) (Index.offerKey offer))
                 existingOffers))
      newParsedOffers.
Proof.
  unfold Index.uniqueNewOffers.
  induction newParsedOffers as [|offer rest IH]; [reflexivity|].
  rewrite filter_cons. cbn [List.filter]. rewrite IH.
  destruct (existsb _ existingOffers) eqn:E; cbn [negb].
  - apply existsb_exists in E as (e & He & Heq).
    apply String.eqb_eq in Heq. apply list_elem_of_In in He.
    rewrite decide_False; [done|].
    intros Hnot. apply Hnot, elem_of_existingOfferKeys. eauto.
  - rewrite decide_True; [done|].
    intros (e & He & Heq)%elem_of_existingOfferKeys.
    apply not_true_iff_false in E. apply E, existsb_exists.
    exists e. split; [by apply list_elem_of_In | by apply String.eqb_eq].
Qed.

Lemma uniqueNewOffers_app existingOffers batch batch' :
  Index.uniqueNewOffers existingOffers (batch ++ batch')
  = Index.uniqueNewOffers existingOffers batch
    ++ Index.uniqueNewOffers existingOffers batch'.
Proof. apply filter_app. Qed.

Lemma uniqueNewOffers_all existingOffers newParsedOffers :
  (∀ offer e, offer ∈ newParsedOffers → e ∈ existingOffers →
     Index.offerKey e ≠ Index.offerKey offer) →
  Index.uniqueNewOffers existingOffers newParsedOffers = newParsedOffers.
Proof.
  intros Hfresh. unfold Index.uniqueNewOffers.
  induction newParsedOffers as [|offer rest IH]; [reflexivity|].
  rewrite filter_cons, decide_True.
  - f_equal. apply IH. intros o e Ho. apply Hfresh. by apply list_elem_of_further.
  - intros (e & He & Heq)%elem_of_existingOfferKeys.
    by apply (Hfresh offer e (list_elem_of_here _ _) He).
Qed.

(** C1, as the specification words it, fails: two offers of one batch that
    agree on the four fields both enter the dataset. *)
Lemma C1_duplicates_within_a_batch :
  let offer yoe :=
    {| Index.company := value "Acme"; Index.role := value "SDE-2";
       Index.yoe := value yoe; Index.base_offer := null;
       Index.total_offer := value 4500000; Index.location := null;
       Index.visa_sponsorship := null; Index.post_id := value "105";
       Index.post_title := value "Acme | SDE-2"; Index.post_date := value "2024-11-02";
       Index.post_timestamp := value 1730505600000 |} in
  Index.allOffers [] [offer 2; offer 3] = [offer 2; offer 3]
  ∧ ¬ Spec.uniqueOnKey (Index.allOffers [] [offer 2; offer 3]).
Proof.
  intros offer. split; [reflexivity|].
  intros Hu. apply (Hu 0%nat 1%nat (offer 2) (offer 3)); [done| reflexivity | reflexivity |].
  by repeat split.
Qed.

(** C1, amended: in every Saving step, at the end of [run] and in
    [saveOnExit] alike, the dataset saved is the loaded dataset, in its
    order, followed by the new offers whose key is the key of no loaded
    offer, in their order and each as often as it occurs in the batch: the
    batch is filtered offer by offer against the loaded keys, a batch none
    of whose keys is loaded is appended whole, and two batches one after
    the other give what each gives.  A new offer that agrees with a loaded
    offer on company, role, total compensation and source post id is
    dropped, so no offer appended agrees with a loaded one on the four
    fields. *)
Theorem C1_merge_against_the_loaded_dataset existingOffers newParsedOffers :
  let merged := Index.allOffers existingOffers newParsedOffers in
  let added := Index.uniqueNewOffers existingOffers newParsedOffers in
  merged = existingOffers ++ added
  ∧ added
    = List.filter
        (λ offer,
           negb (existsb (λ e, String.eqb (Index.offerKey e) (Index.offerKey offer))
                   existingOffers))
        newParsedOffers
  ∧ ((∀ offer e, offer ∈ newParsedOffers → e ∈ existingOffers →
        Index.offerKey e ≠ Index.offerKey offer) →
     merged = existingOffers ++ newParsedOffers)
  ∧ (∀ batch batch', newParsedOffers = batch ++ batch' →
       added = Index.uniqueNewOffers existingOffers batch
               ++ Index.uniqueNewOffers existingOffers batch')
  ∧ added `sublist_of` newParsedOffers
  ∧ (∀ offer, offer ∈ added ↔
       offer ∈ newParsedOffers
       ∧ ∀ e, e ∈ existingOffers → Index.offerKey e ≠ Index.offerKey offer)
  ∧ (∀ offer e, e ∈ existingOffers → Spec.sameKeyFields e offer → offer ∉ added)
  ∧ (∀ i j e offer,
       (i < length existingOffers)%nat → merged !! i = Some e →
       (length existingOffers ≤ j)%nat → merged !! j = Some offer →
       ¬ Spec.sameKeyFields e offer)
  ∧ (∀ env s disk,
       (Index.finish env existingOffers s disk).2
       = Index.saveData env (Index.allOffers existingOffers (Index.newParsedOffers s))
           (Index.lastFetchedPostId s) disk
       ∧ Index.saveOnExit env existingOffers s disk
         = Index.saveData env (Index.allOffers existingOffers (Index.newParsedOffers s))
             (Index.lastFetchedPostId s) disk).
Proof.
  intros merged added.
  assert (Hdrop : ∀ offer e, e ∈ existingOffers → Spec.sameKeyFields e offer → offer ∉ added).
  { intros offer e He Hsame Hin. apply elem_of_uniqueNewOffers in Hin as [_ Hkeys].
    by apply (Hkeys e He), sameKeyFields_offerKey. }
  split; [reflexivity|].
  split; [apply uniqueNewOffers_filter|].
  split.
  { intros Hfresh. unfold merged, Index.allOffers. by rewrite uniqueNewOffers_all. }
  split; [intros batch batch' ->; apply uniqueNewOffers_app|].
  split; [apply uniqueNewOffers_sublist|].
  split; [intros offer; apply elem_of_uniqueNewOffers|].
  split; [exact Hdrop|].
  split; [|by intros env s disk].
  intros i j e offer Hi Hie Hj Hjo Hsame.
  unfold merged, Index.allOffers in Hie, Hjo.
  rewrite lookup_app_l in Hie by done.
  rewrite lookup_app_r in Hjo by done.
  apply (Hdrop offer e); [by eapply list_elem_of_lookup_2 | done |].
  by eapply list_elem_of_lookup_2.
Qed.

(** C9: the key is one string, company, role, total compensation and post
    id joined by ["-"].  The offers "A-B"/"C" and "A"/"B-C" differ on
    company and on role, have the same key whatever the other fields hold,
    and the second is dropped when the first is in the loaded dataset. *)
Theorem C9_key_collision yoe base total location visa pid ptitle pdate ptime :
  let a :=
    Index.Build_ParsedOffer (value "A-B") (value "C") yoe base total location visa
      pid ptitle pdate ptime in
  let b :=
    Index.Build_ParsedOffer (value "A") (value "B-C") yoe base total location visa
      pid ptitle pdate ptime in
  Index.offerKey a
    = "A-B-C-" +:+ toString total +:+ "-" +:+ toString pid
  ∧ Index.offerKey b = Index.offerKey a
  ∧ ¬ Spec.sameKeyFields a b
  ∧ Index.allOffers [a] [b] = [a].
Proof.
  intros a b.
  split; [reflexivity|]. split; [reflexivity|]. split.
  { intros (Hc & _). discriminate Hc. }
  unfold Index.allOffers, Index.uniqueNewOffers. rewrite filter_cons.
  rewrite decide_False; [done|].
  intros Hnot. apply Hnot, elem_of_existingOfferKeys.
  exists a. split; [apply list_elem_of_here | reflexivity].
Qed.

(** ** The forum client *)

Section RefreshFacts.

Variable lastPostId : nullable string.
Variable maxPosts : Z.
Variable listing : Z → Refresh.Listing.
Variable topic : option Z → nullable string.

Local Abbreviation scan := (Refresh.scan lastPostId maxPosts topic).
Local Abbreviation pages := (Refresh.pages lastPostId maxPosts listing topic).

Lemma scan_counts posts tf pp :
  let r := scan posts tf pp in
  Refresh.totalFetched r - tf = Refresh.postsProcessed r - pp
  ∧ pp ≤ Refresh.postsProcessed r
  ∧ Z.of_nat (length (Refresh.yielded r)) = Refresh.postsProcessed r - pp.
Proof.
  revert tf pp. induction posts as [|post rest IH]; intros tf pp; simpl.
  { lia. }
  destruct (tf >=? maxPosts); simpl; [lia|].
  destruct (Refresh.reachedLastPost lastPostId post); simpl; [lia|].
  destruct (Refresh.getPostContent topic _); simpl.
  - specialize (IH (tf + 1) (pp + 1)). simpl in IH. lia.
  - apply IH.
Qed.

Lemma pages_terminates fuel skip tf found :
  (Z.to_nat (maxPosts - tf) ≤ fuel)%nat → is_Some (pages fuel skip tf found).
Proof.
  revert skip tf found. induction fuel as [|fuel IH]; intros skip tf found Hfuel.
  - simpl. destruct (tf <? maxPosts) eqn:Hlt; simpl; [|eauto].
    destruct found; simpl; [eauto|]. apply Z.ltb_lt in Hlt. lia.
  - simpl. destruct (tf <? maxPosts) eqn:Hlt; simpl; [|eauto].
    destruct found; simpl; [eauto|]. apply Z.ltb_lt in Hlt.
    destruct (listing skip) as [msg|[| |[|p ps]]]; eauto.
    set (posts := if skip =? 0 then ps else p :: ps).
    destruct (scan_counts posts tf 0) as (Htf & Hpp & _).
    destruct ((_ <? Refresh.first) || _) eqn:Hbreak; [eauto|].
    apply orb_false_iff in Hbreak as [_ Hbreak].
    apply andb_false_iff in Hbreak as [Hz|Hz].
    2:{ rewrite Z.gtb_ltb in Hz. apply Z.ltb_ge in Hz. lia. }
    apply Z.eqb_neq in Hz.
    destruct (IH (skip + Refresh.first) (Refresh.totalFetched (scan posts tf 0))
                 (Refresh.foundLastPost (scan posts tf 0))) as [[more outcome] ->]; [lia|eauto].
Qed.

Lemma scan_above posts tf pp post :
  post ∈ Refresh.yielded (scan posts tf pp) →
  ∃ e, e ∈ posts ∧ id post = Refresh.node_id e
       ∧ Refresh.reachedLastPost lastPostId e = false.
Proof.
  revert tf pp. induction posts as [|e rest IH]; intros tf pp; simpl.
  { intros Hin. by apply elem_of_nil in Hin. }
  destruct (tf >=? maxPosts); simpl; [intros Hin; by apply elem_of_nil in Hin|].
  destruct (Refresh.reachedLastPost lastPostId e) eqn:Hreach; simpl;
    [intros Hin; by apply elem_of_nil in Hin|].
  destruct (Refresh.getPostContent topic _); simpl.
  - intros [->|Hin]%elem_of_cons.
    + exists e. split; [apply list_elem_of_here | done].
    + destruct (IH _ _ Hin) as (e' & He' & Hid & Hr).
      exists e'. split; [by apply list_elem_of_further | done].
  - intros Hin. destruct (IH _ _ Hin) as (e' & He' & Hid & Hr).
    exists e'. split; [by apply list_elem_of_further | done].
Qed.

Lemma pages_above fuel skip tf found out outcome post :
  pages fuel skip tf found = Some (out, outcome) → post ∈ out →
  ∃ e, id post = Refresh.node_id e ∧ Refresh.reachedLastPost lastPostId e = false.
Proof.
  revert skip tf found out outcome.
  induction fuel as [|fuel IH]; intros skip tf found out outcome; simpl.
  - destruct (negb _); [|discriminate].
    intros [= <- <-] Hin. by apply elem_of_nil in Hin.
  - destruct (negb _).
    { intros [= <- <-] Hin. by apply elem_of_nil in Hin. }
    destruct (listing skip) as [msg|[| |[|p ps]]];
      try (intros [= <- <-] Hin; by apply elem_of_nil in Hin).
    set (posts := if skip =? 0 then ps else p :: ps).
    destruct (_ || _).
    { intros [= <- <-] Hin. apply scan_above in Hin as (e & _ & ? & ?). eauto. }
    destruct (pages fuel _ _ _) as [[more outcome']|] eqn:Hmore; [|discriminate].
    intros [= <- <-] [Hin|Hin]%elem_of_app.
    + apply scan_above in Hin as (e & _ & ? & ?). eauto.
    + eapply IH; eauto.
Qed.

Lemma scan_at_cursor pre e suf tf pp :
  Refresh.reachedLastPost lastPostId e = true →
  let r := scan pre tf pp in
  let r' := scan (pre ++ e :: suf) tf pp in
  Refresh.yielded r' = Refresh.yielded r
  ∧ Refresh.totalFetched r' = Refresh.totalFetched r
  ∧ Refresh.postsProcessed r' = Refresh.postsProcessed r
  ∧ (Refresh.foundLastPost r' = true ∨ maxPosts ≤ Refresh.totalFetched r').
Proof.
  intros Hreach. revert tf pp. induction pre as [|e' pre IH]; intros tf pp; simpl.
  { destruct (Z.geb_spec tf maxPosts); simpl.
    - split; [done|]. split; [done|]. split; [done|]. right. lia.
    - rewrite Hreach. simpl. split; [done|]. split; [done|]. split; [done|]. by left. }
  destruct (Z.geb_spec tf maxPosts); simpl.
  { split; [done|]. split; [done|]. split; [done|]. right. lia. }
  destruct (Refresh.reachedLastPost lastPostId e'); simpl.
  { split; [done|]. split; [done|]. split; [done|]. by left. }
  destruct (Refresh.getPostContent topic _); simpl; [|apply IH].
  destruct (IH (tf + 1) (pp + 1)) as (Hy & Ht & Hp & Hend).
  split; [by f_equal|]. done.
Qed.

(** The page that holds the first post at or below the cursor is the last
    one requested, and it yields what stands before that post. *)
Lemma pages_stop_at_cursor fuel skip tf p ps pre e suf :
  listing skip = Refresh.Edges (value (p :: ps)) →
  tf < maxPosts →
  (if skip =? 0 then ps else p :: ps) = pre ++ e :: suf →
  Refresh.reachedLastPost lastPostId e = true →
  pages (S fuel) skip tf false = Some (Refresh.yielded (scan pre tf 0), Return ()).
Proof.
  intros Hl Htf Hpage Hreach. simpl. rewrite Hl.
  apply Z.ltb_lt in Htf. rewrite Htf. simpl. rewrite Hpage.
  destruct (scan_at_cursor pre e suf tf 0 Hreach) as (Hy & Ht & _ & Hend).
  destruct (_ || _); [by rewrite Hy|].
  replace (pages fuel _ _ _) with (Some ([] : list LeetCodePost, Return ())).
  { by rewrite app_nil_r, Hy. }
  destruct Hend as [Hend|Hend].
  - rewrite Hend. destruct fuel; simpl; by rewrite andb_false_r.
  - apply Z.ltb_ge in Hend. destruct fuel; simpl; by rewrite Hend.
Qed.

End RefreshFacts.


(** The generator never runs out of fuel: [maxPosts] pages are enough. *)
Lemma getLatestPosts_terminates lastPostId maxPosts listing topic :
  is_Some (Refresh.getLatestPosts_fuel lastPostId maxPosts listing topic).
Proof. apply pages_terminates. lia. Qed.

Lemma reachedLastPost_false last c e :
  last ≠ "" → parseInt last = Some c →
  Refresh.reachedLastPost (value last) e = false
  ↔ le (parseInt (Refresh.node_id e)) (Some c) = false.
Proof.
  intros Hne Hc. unfold Refresh.reachedLastPost. rewrite Hc.
  apply truthy_string_iff in Hne. by rewrite Hne.
Qed.

Lemma getLatestPosts_above last c maxPosts listing topic post :
  last ≠ "" → parseInt last = Some c →
  post ∈ (Refresh.getLatestPosts (value last) maxPosts listing topic).1 →
  le (parseInt (id post)) (Some c) = false.
Proof.
  intros Hne Hc. unfold Refresh.getLatestPosts.
  destruct (getLatestPosts_terminates (value last) maxPosts listing topic)
    as [[out outcome] Hout].
  rewrite Hout. simpl. intros Hin.
  destruct (pages_above _ _ _ _ _ _ _ _ _ _ _ Hout Hin) as (e & -> & Hreach).
  by apply (reachedLastPost_false last c e Hne Hc).
Qed.

(** The cursor at 103, a pinned post, then 105, 104, 103, 102: the posts
    yielded are 105 and 104. *)
Lemma cursor_boundary_example pinned e105 e104 e103 e102 body105 body104 topic maxPosts :
  Refresh.node_id e105 = "105" → Refresh.node_id e104 = "104" →
  Refresh.node_id e103 = "103" → Refresh.node_id e102 = "102" →
  topic (Some 105) = value body105 → body105 ≠ "" →
  topic (Some 104) = value body104 → body104 ≠ "" →
  2 ≤ maxPosts →
  let out :=
    Refresh.getLatestPosts (value "103") maxPosts
      (λ _, Refresh.Edges (value [pinned; e105; e104; e103; e102])) topic in
  id <$> out.1 = ["105"; "104"] ∧ out.2 = Return ().
Proof.
  intros H105 H104 H103 H102 Ht105 Hb105 Ht104 Hb104 Hmax.
  apply truthy_string_iff in Hb105, Hb104.
  unfold Refresh.getLatestPosts, Refresh.getLatestPosts_fuel.
  destruct (Z.to_nat maxPosts) as [|fuel] eqn:Hfuel; [lia|].
  assert (H0 : (0 <? maxPosts) = true) by (apply Z.ltb_lt; lia).
  assert (Hge0 : (0 >=? maxPosts) = false) by (rewrite Z.geb_leb; apply Z.leb_gt; lia).
  assert (Hge1 : (1 >=? maxPosts) = false) by (rewrite Z.geb_leb; apply Z.leb_gt; lia).
  cbn [Refresh.pages]. rewrite H0. cbn [negb andb Z.eqb length].
  cbn [Refresh.scan]. rewrite Hge0.
  unfold Refresh.reachedLastPost, Refresh.getPostContent.
  rewrite H105. cbn [truthy truthy_string andb].
  replace (le (parseInt "105") (parseInt "103")) with false by reflexivity.
  replace (parseInt "105") with (Some 105) by reflexivity.
  rewrite Ht105, Hb105. change (0 + 1) with 1. rewrite Hge1.
  rewrite H104.
  replace (le (parseInt "104") (parseInt "103")) with false by reflexivity.
  replace (parseInt "104") with (Some 104) by reflexivity.
  rewrite Ht104, Hb104. change (1 + 1) with 2. change (0 + 1 + 1) with 2.
  rewrite H103.
  replace (le (parseInt "103") (parseInt "103")) with true by reflexivity.
  by destruct (2 >=? maxPosts).
Qed.

(** C3, with the page read as it comes: 105, 104, 103, 102 is the first
    page of the listing, its first element is taken for the pinned post and
    dropped, and 104 alone is yielded. *)
Lemma C3_first_listed_post_is_dropped :
  let edge node_id :=
    {| Refresh.node_id := node_id; Refresh.node_title := "Offer";
       Refresh.voteCount := 3; Refresh.creationDate := 1730505600;
       Refresh.commentCount := 0; Refresh.viewCount := 10 |} in
  id <$> (Refresh.getLatestPosts (value "103") 500
            (λ _, Refresh.Edges (value [edge "105"; edge "104"; edge "103"; edge "102"]))
            (λ _, value "body")).1
  = ["104"].
Proof. reflexivity. Qed.

(** C3, amended: given a cursor, every post yielded has an id that is not
    at or below the cursor, so a numeric id is strictly greater and the post
    with the cursor's id is left out; the page that holds the first post at
    or below the cursor yields what stands before that post, and no further
    page is requested.  With
    the cursor at 103 and a first page made of the pinned post followed by
    105, 104, 103, 102, the posts yielded are 105 and 104. *)
Theorem C3_cursor_boundary :
  (∀ last c maxPosts listing topic post,
     last ≠ "" → parseInt last = Some c →
     post ∈ (Refresh.getLatestPosts (value last) maxPosts listing topic).1 →
     le (parseInt (id post)) (Some c) = false
     ∧ ∀ n, parseInt (id post) = Some n → c < n)
  ∧ (∀ last c maxPosts listing topic fuel skip tf p ps pre e suf n,
       last ≠ "" → parseInt last = Some c →
       listing skip = Refresh.Edges (value (p :: ps)) → tf < maxPosts →
       (if skip =? 0 then ps else p :: ps) = pre ++ e :: suf →
       parseInt (Refresh.node_id e) = Some n → n ≤ c →
       Refresh.pages (value last) maxPosts listing topic (S fuel) skip tf false
       = Some (Refresh.yielded (Refresh.scan (value last) maxPosts topic pre tf 0),
               Return ()))
  ∧ (∀ pinned e105 e104 e103 e102 body105 body104 topic maxPosts,
       Refresh.node_id e105 = "105" → Refresh.node_id e104 = "104" →
       Refresh.node_id e103 = "103" → Refresh.node_id e102 = "102" →
       topic (Some 105) = value body105 → body105 ≠ "" →
       topic (Some 104) = value body104 → body104 ≠ "" →
       2 ≤ maxPosts →
       let out :=
         Refresh.getLatestPosts (value "103") maxPosts
           (λ _, Refresh.Edges (value [pinned; e105; e104; e103; e102])) topic in
       id <$> out.1 = ["105"; "104"] ∧ out.2 = Return ()).
Proof.
  split; [|split].
  - intros last c maxPosts listing topic post Hne Hc Hin.
    pose proof (getLatestPosts_above _ _ _ _ _ _ Hne Hc Hin) as Hle.
    split; [done|]. intros n Hn. rewrite Hn in Hle. simpl in Hle.
    by apply Z.leb_gt in Hle.
  - intros last c maxPosts listing topic fuel skip tf p ps pre e suf n
      Hne Hc Hl Htf Hpage Hn Hle.
    apply (pages_stop_at_cursor _ _ _ _ _ _ _ p ps pre e suf); try done.
    unfold Refresh.reachedLastPost.
    apply truthy_string_iff in Hne. rewrite Hne, Hc, Hn. simpl.
    by apply Z.leb_le.
  - apply cursor_boundary_example.
Qed.

Lemma C3_cursor_boundary_witness :
  let edge node_id :=
    {| Refresh.node_id := node_id; Refresh.node_title := "Offer";
       Refresh.voteCount := 3; Refresh.creationDate := 1730505600;
       Refresh.commentCount := 0; Refresh.viewCount := 10 |} in
  let out :=
    Refresh.getLatestPosts (value "103") 500
      (λ _, Refresh.Edges
              (value [edge "1"; edge "105"; edge "104"; edge "103"; edge "102"]))
      (λ _, value "body") in
  id <$> out.1 = ["105"; "104"] ∧ out.2 = Return ().
Proof.
  intros edge.
  apply (proj2 (proj2 C3_cursor_boundary)
           (edge "1") (edge "105") (edge "104") (edge "103") (edge "102")
           "body" "body" (λ _, value "body") 500);
    first [reflexivity | discriminate | lia].
Defined.

(** ** The extraction clients *)

Section GeminiFacts.
Variable apiKey : nullable string.
Variable model : nat → Gemini.Generation.

Lemma Gemini_parsePost_fuel_enough fuel retryCount :
  (0 < fuel)%nat → (4 ≤ fuel + retryCount)%nat →
  is_Some (Gemini.parsePost_fuel apiKey model fuel retryCount).
Proof.
  revert retryCount. induction fuel as [|fuel IH]; intros retryCount Hpos Hfuel; [lia|].
  simpl.
  destruct (negb (truthy apiKey)); [eauto|].
  destruct (model retryCount) as [error|reply]; [|eauto].
  destruct (strictEq _ _); [|eauto].
  destruct (_ && _); [eauto|].
  destruct (Nat.ltb_spec retryCount 3) as [Hlt|Hge]; [|eauto].
  destruct (IH (retryCount + 1)%nat) as [[events outcome] ->]; [lia|lia|eauto].
Qed.

Lemma Gemini_parsePost_total : is_Some (Gemini.parsePost apiKey model).
Proof. apply Gemini_parsePost_fuel_enough; lia. Qed.

(** One more attempt after a 429 that is not taken for a quota failure. *)
Lemma Gemini_retry fuel retryCount error :
  truthy apiKey = true →
  model retryCount = Gemini.Fails error →
  strictEq (Gemini.status error) 429 = true →
  truthy (Gemini.findDetail error Gemini.QuotaFailure) && (retryCount =? 0)%nat = false →
  (retryCount < 3)%nat →
  Gemini.parsePost_fuel apiKey model (S fuel) retryCount
  = match Gemini.parsePost_fuel apiKey model fuel (retryCount + 1) with
    | Some (events, outcome) =>
        Some (ModelCall retryCount :: Sleep (Gemini.delayOf error retryCount) :: events, outcome)
    | None => None
    end.
Proof.
  intros Hkey Hmodel H429 Hquota Hlt. simpl.
  rewrite Hkey, Hmodel, H429, Hquota. simpl.
  by destruct (Nat.ltb_spec retryCount 3); [|lia].
Qed.

(** A first attempt that fails with status 429 and a [QuotaFailure] detail
    raises [QUOTA_EXCEEDED] after that one request: no pause, no retry. *)
Lemma Gemini_quota_on_first_attempt error :
  truthy apiKey = true →
  model 0%nat = Gemini.Fails error →
  strictEq (Gemini.status error) 429 = true →
  truthy (Gemini.findDetail error Gemini.QuotaFailure) = true →
  Gemini.parsePost apiKey model = Some ([ModelCall 0], Throw QUOTA_EXCEEDED).
Proof.
  intros Hkey Hmodel H429 Hquota. unfold Gemini.parsePost. simpl.
  by rewrite Hkey, Hmodel, H429, Hquota.
Qed.

Lemma Gemini_rate_limit_backoff (error : nat → Gemini.ApiError) :
  truthy apiKey = true →
  (∀ k, (k ≤ 3)%nat → model k = Gemini.Fails (error k)
                       ∧ strictEq (Gemini.status (error k)) 429 = true) →
  truthy (Gemini.findDetail (error 0%nat) Gemini.QuotaFailure) = false →
  Gemini.parsePost apiKey model
  = Some ([ModelCall 0; Sleep (Gemini.delayOf (error 0%nat) 0);
           ModelCall 1; Sleep (Gemini.delayOf (error 1%nat) 1);
           ModelCall 2; Sleep (Gemini.delayOf (error 2%nat) 2);
           ModelCall 3], Return null).
Proof.
  intros Hkey Hmodel Hquota. unfold Gemini.parsePost.
  destruct (Hmodel 0%nat) as [H0 S0]; [lia|].
  destruct (Hmodel 1%nat) as [H1 S1]; [lia|].
  destruct (Hmodel 2%nat) as [H2 S2]; [lia|].
  destruct (Hmodel 3%nat) as [H3 S3]; [lia|].
  rewrite (Gemini_retry _ _ _ Hkey H0 S0) by (rewrite ?Hquota, ?andb_false_r; done || lia).
  rewrite (Gemini_retry _ _ _ Hkey H1 S1) by (rewrite ?andb_false_r; done || lia).
  rewrite (Gemini_retry _ _ _ Hkey H2 S2) by (rewrite ?andb_false_r; done || lia).
  simpl. by rewrite Hkey, H3, S3, andb_false_r.
Qed.

Lemma Gemini_delay_backoff error retryCount :
  Gemini.findDetail error Gemini.RetryInfo = undefined →
  Gemini.delayOf error retryCount = Exact (2 * 2 ^ Z.of_nat retryCount * 1000).
Proof. unfold Gemini.delayOf. intros ->. f_equal. lia. Qed.

Lemma Gemini_delay_suggested error retryCount detail s :
  Gemini.findDetail error Gemini.RetryInfo = value detail →
  Gemini.retryDelay detail = value s → s ≠ "" →
  Gemini.delayOf error retryCount = OfRetryDelay s.
Proof.
  unfold Gemini.delayOf. intros -> -> Hs.
  apply truthy_string_iff in Hs. by rewrite Hs.
Qed.
End GeminiFacts.

Section PerplexityFacts.
Variable apiKey : nullable string.
Variable api : nat → Perplexity.Completion.

Lemma Perplexity_thrown_without_status retryCount events e :
  Perplexity.attempt apiKey api retryCount = (events, inr e) →
  Perplexity.status e = undefined.
Proof.
  unfold Perplexity.attempt.
  destruct apiKey as [| |key]; try (intros [= <- <-]; done).
  destruct (negb (truthy key)); [intros [= <- <-]; done|].
  destruct (_ <? _)%nat; [intros [= <- <-]; done|].
  destruct (api retryCount); intros H; by simplify_eq.
Qed.

Lemma Perplexity_single_attempt fuel retryCount :
  Perplexity.parsePost_fuel apiKey api (S fuel) retryCount
  = Some ((Perplexity.attempt apiKey api retryCount).1,
          Return match (Perplexity.attempt apiKey api retryCount).2 with
                 | inl offers => offers
                 | inr _ => null
                 end).
Proof.
  simpl. destruct (Perplexity.attempt apiKey api retryCount) as [events [offers|e]] eqn:Ha;
    [done|].
  by rewrite (Perplexity_thrown_without_status _ _ _ Ha).
Qed.

Lemma Perplexity_parsePost_total : is_Some (Perplexity.parsePost apiKey api).
Proof. unfold Perplexity.parsePost. rewrite Perplexity_single_attempt. eauto. Qed.

End PerplexityFacts.

(** Behind the orchestrator of [packages/leetoffer] the client always
    returns: the stop on [QUOTA_EXCEEDED] is never taken. *)
Lemma perplexity_never_throws apiKey api n post :
  ∃ offers, Index.perplexity apiKey api n post = Return offers.
Proof.
  unfold Index.perplexity, Perplexity.parsePost.
  rewrite Perplexity_single_attempt. eauto.
Qed.

(** C4, on the client of [packages/leetoffer]: the answer is HTTP 429 with a
    payload that the handler's own test takes for a quota failure, on the
    first attempt; the error thrown carries no [status], the branch for 429
    is not entered, and the post is given up with "no offers" where
    [QUOTA_EXCEEDED] was due.  The client of [packages/leetcomp] raises it
    ([Gemini_quota_on_first_attempt]). *)
Theorem C4_perplexity_swallows_quota apiKey api key body :
  apiKey = value key → (10 ≤ String.length key)%nat →
  api 0%nat = Perplexity.NotOk 429 body →
  Perplexity.looksLikeQuota (Perplexity.new_Error (Perplexity.errorMsg 429 body)) = true →
  Perplexity.parsePost apiKey api = Some ([ModelCall 0], Return null).
Proof.
  intros -> Hlen Hapi _. unfold Perplexity.parsePost.
  rewrite Perplexity_single_attempt. unfold Perplexity.attempt.
  destruct key as [|c key]; [simpl in Hlen; lia|].
  cbn [truthy truthy_string negb].
  destruct (Nat.ltb_spec (String.length (String c key)) 10) as [Hlt|_]; [lia|].
  by rewrite Hapi.
Qed.

Lemma C4_perplexity_swallows_quota_witness :
  let body :=
    {| Perplexity.errorText := "quota";
       Perplexity.json := Some (value "You exceeded your current quota", undefined) |} in
  Perplexity.parsePost (value "pplx-0123456789") (λ _, Perplexity.NotOk 429 body)
  = Some ([ModelCall 0], Return null).
Proof.
  intros body.
  apply (C4_perplexity_swallows_quota _ _ "pplx-0123456789" body);
    [reflexivity | simpl; lia | reflexivity | reflexivity].
Defined.

(** C5, on the client of [packages/leetoffer]: whatever the status of the
    answer, 429 included, the post is given up after one request, with no
    pause and no second request.  The client of [packages/leetcomp] retries
    three times, pausing as the claim says ([Gemini_rate_limit_backoff],
    [Gemini_delay_backoff], [Gemini_delay_suggested]). *)
Theorem C5_perplexity_never_retries apiKey api key status body :
  apiKey = value key → (10 ≤ String.length key)%nat →
  api 0%nat = Perplexity.NotOk status body →
  ∃ events,
    Perplexity.parsePost apiKey api = Some (events, Return null)
    ∧ events = [ModelCall 0]
    ∧ (∀ delay, Sleep delay ∉ events)
    ∧ ModelCall 1 ∉ events.
Proof.
  intros -> Hlen Hapi. exists [ModelCall 0%nat]. split; [|split; [done|split]].
  - unfold Perplexity.parsePost.
    rewrite Perplexity_single_attempt. unfold Perplexity.attempt.
    destruct key as [|c key]; [simpl in Hlen; lia|].
    cbn [truthy truthy_string negb].
    destruct (Nat.ltb_spec (String.length (String c key)) 10) as [Hlt|_]; [lia|].
    by rewrite Hapi.
  - intros delay Hin. apply list_elem_of_singleton in Hin. discriminate Hin.
  - intros Hin. apply list_elem_of_singleton in Hin. discriminate Hin.
Qed.

Lemma C5_perplexity_never_retries_witness :
  ∃ events,
    Perplexity.parsePost (value "pplx-0123456789")
      (λ _, Perplexity.NotOk 429
              {| Perplexity.errorText := "Too Many Requests"; Perplexity.json := None |})
    = Some (events, Return null)
    ∧ events = [ModelCall 0]
    ∧ (∀ delay, Sleep delay ∉ events)
    ∧ ModelCall 1 ∉ events.
Proof.
  apply (C5_perplexity_never_retries _ _ "pplx-0123456789" 429
           {| Perplexity.errorText := "Too Many Requests"; Perplexity.json := None |});
    [reflexivity | simpl; lia | reflexivity].
Defined.

(** ** The orchestrator *)

Section LoopFacts.
Variable parsePost : Z → LeetCodePost → Outcome (nullable (list Schema.ParsedOffer)).

Local Abbreviation loop := (Index.loop parsePost).

Local Abbreviation spends := Spec.spends.

Lemma spends_refl posts s : spends posts s s.
Proof.
  exists []. rewrite app_nil_r. split; [done|]. split; [simpl; lia|].
  intros post Hin. by apply elem_of_nil in Hin.
Qed.

Lemma spends_skip post rest s1 s2 s' :
  Index.extractionCalls s2 = Index.extractionCalls s1 →
  Index.apiCallCount s2 = Index.apiCallCount s1 →
  spends rest s2 s' → spends (post :: rest) s1 s'.
Proof.
  intros Hc Hn (new & Hcalls & Hcount & Hnew). exists new.
  rewrite Hcalls, Hcount, Hc, Hn. split; [done|]. split; [done|].
  intros p Hin. destruct (Hnew p Hin). split; [by apply list_elem_of_further | done].
Qed.

Lemma spends_call post rest s1 s2 s' :
  0 ≤ vote_count post →
  Index.extractionCalls s2 = Index.extractionCalls s1 ++ [post] →
  Index.apiCallCount s2 = Index.apiCallCount s1 + 1 →
  spends rest s2 s' → spends (post :: rest) s1 s'.
Proof.
  intros Hv Hc Hn (new & Hcalls & Hcount & Hnew). exists (post :: new).
  rewrite Hcalls, Hcount, Hc, Hn, <- app_assoc. simpl length.
  split; [done|]. split; [lia|].
  intros p [->|Hin]%elem_of_cons; [split; [apply list_elem_of_here | done]|].
  destruct (Hnew p Hin). split; [by apply list_elem_of_further | done].
Qed.

Lemma extractionCalls_pause s :
  Index.extractionCalls (Index.pause s) = Index.extractionCalls s
  ∧ Index.apiCallCount (Index.pause s) = Index.apiCallCount s.
Proof.
  unfold Index.pause, Index.extractionCalls.
  destruct (_ && _); [|destruct (_ >? _)]; simpl; rewrite ?omap_app, ?app_nil_r; done.
Qed.

Lemma extractionCalls_call post s :
  Index.extractionCalls (Index.call post s) = Index.extractionCalls s ++ [post].
Proof. unfold Index.call, Index.extractionCalls. simpl. by rewrite omap_app. Qed.

Lemma loop_at_cap posts s :
  Index.MAX_DAILY_API_CALLS ≤ Index.apiCallCount s → loop posts s = s.
Proof.
  intros Hcap. destruct posts as [|post rest]; [done|]. simpl.
  by destruct (Z.geb_spec (Index.apiCallCount s) Index.MAX_DAILY_API_CALLS); [|lia].
Qed.

Lemma loop_spends posts s : spends posts s (loop posts s).
Proof.
  revert s. induction posts as [|post rest IH]; intros s; [apply spends_refl|].
  simpl. destruct (_ >=? _); [apply spends_refl|].
  destruct (Z.ltb_spec (vote_count post) 0) as [Hneg|Hpos].
  { eapply spends_skip; [| |apply IH]; unfold Index.extractionCalls; simpl;
      rewrite ?omap_app, ?app_nil_r; done. }
  destruct (extractionCalls_pause (Index.begin post s)) as [Hp1 Hp2].
  assert (Hcall : ∀ s', Index.extractionCalls s' = Index.extractionCalls (Index.call post (Index.pause (Index.begin post s))) →
            Index.apiCallCount s' = Index.apiCallCount (Index.call post (Index.pause (Index.begin post s))) →
            spends rest s' (loop rest s') → spends (post :: rest) s (loop rest s')).
  { intros s' Hc Hn Hs. eapply (spends_call post rest s s'); [done| | |done].
    - rewrite Hc, extractionCalls_call, Hp1. done.
    - rewrite Hn. simpl. rewrite Hp2. done. }
  destruct (parsePost _ post) as [[| |[|offer offers]]|message].
  1-3: by apply Hcall.
  - destruct (toISODate _); by apply Hcall.
  - destruct (String.eqb _ _); [|by apply Hcall].
    eapply (spends_call post rest s); [done| | |apply spends_refl].
    + by rewrite extractionCalls_call, Hp1.
    + simpl. by rewrite Hp2.
Qed.

Lemma loop_budget posts s :
  Index.apiCallCount s ≤ Index.MAX_DAILY_API_CALLS →
  Index.apiCallCount (loop posts s) ≤ Index.MAX_DAILY_API_CALLS.
Proof.
  revert s. induction posts as [|post rest IH]; intros s Hs; [done|].
  simpl. destruct (Z.geb_spec (Index.apiCallCount s) Index.MAX_DAILY_API_CALLS); [done|].
  destruct (_ <? 0); [by apply IH|].
  destruct (extractionCalls_pause (Index.begin post s)) as [_ Hp2]. simpl in Hp2.
  destruct (parsePost _ post) as [[| |[|offer offers]]|message];
    try destruct (toISODate _); try destruct (String.eqb _ _);
    try apply IH; simpl; rewrite Hp2; lia.
Qed.

Lemma loop_last_call posts s :
  Index.apiCallCount s = Index.MAX_DAILY_API_CALLS - 1 →
  (∃ post, post ∈ posts ∧ 0 ≤ vote_count post) →
  Index.apiCallCount (loop posts s) = Index.MAX_DAILY_API_CALLS.
Proof.
  revert s. induction posts as [|post rest IH]; intros s Hs (p & Hin & Hp).
  { by apply elem_of_nil in Hin. }
  simpl. destruct (Z.geb_spec (Index.apiCallCount s) Index.MAX_DAILY_API_CALLS); [lia|].
  destruct (Z.ltb_spec (vote_count post) 0) as [Hneg|Hpos].
  { apply IH; [done|]. apply elem_of_cons in Hin as [->|Hin]; [lia|eauto]. }
  destruct (extractionCalls_pause (Index.begin post s)) as [_ Hp2]. simpl in Hp2.
  destruct (parsePost _ post) as [[| |[|offer offers]]|message];
    try destruct (toISODate _); try destruct (String.eqb _ _);
    rewrite ?loop_at_cap; simpl; rewrite Hp2; lia.
Qed.

(** The posts processed are a prefix of the stream, and the cursor is the
    id of the last of them. *)
Lemma loop_cursor posts s :
  ∃ k : nat,
    (k ≤ length posts)%nat
    ∧ Index.processedCount (loop posts s) = Index.processedCount s + Z.of_nat k
    ∧ Index.lastFetchedPostId (loop posts s)
      = from_option (λ post, value (id post)) (Index.lastFetchedPostId s)
          (last (take k posts)).
Proof.
  revert s. induction posts as [|post rest IH]; intros s.
  { exists 0%nat. simpl. repeat split; [lia|lia]. }
  assert (Hstop : ∀ s1,
            Index.processedCount s1 = Index.processedCount s + 1 →
            Index.lastFetchedPostId s1 = value (id post) →
            ∃ k : nat,
              (k ≤ length (post :: rest))%nat
              ∧ Index.processedCount s1 = Index.processedCount s + Z.of_nat k
              ∧ Index.lastFetchedPostId s1
                = from_option (λ post, value (id post)) (Index.lastFetchedPostId s)
                    (last (take k (post :: rest)))).
  { intros s1 Hp Hl. exists 1%nat. simpl. rewrite ?take_0. simpl.
    repeat split; [lia|lia|done]. }
  assert (Hgo : ∀ s1,
            Index.processedCount s1 = Index.processedCount s + 1 →
            Index.lastFetchedPostId s1 = value (id post) →
            ∃ k : nat,
              (k ≤ length (post :: rest))%nat
              ∧ Index.processedCount (loop rest s1) = Index.processedCount s + Z.of_nat k
              ∧ Index.lastFetchedPostId (loop rest s1)
                = from_option (λ post, value (id post)) (Index.lastFetchedPostId s)
                    (last (take k (post :: rest)))).
  { intros s1 Hp Hl. destruct (IH s1) as (k & Hk & Hcount & Hlast).
    exists (S k). simpl. rewrite last_cons, Hcount, Hlast, Hp, Hl.
    repeat split; [lia|lia|]. by destruct (last (take k rest)). }
  simpl. destruct (_ >=? _).
  { exists 0%nat. simpl. repeat split; [lia|lia]. }
  destruct (_ <? 0); [by apply Hgo|].
  assert (Hp : ∀ s0, Index.processedCount (Index.pause s0) = Index.processedCount s0
                     ∧ Index.lastFetchedPostId (Index.pause s0) = Index.lastFetchedPostId s0).
  { intros s0. unfold Index.pause. by destruct (_ && _); [|destruct (_ >? _)]. }
  destruct (Hp (Index.begin post s)) as [Hp1 Hp2].
  destruct (parsePost _ post) as [[| |[|offer offers]]|message];
    try destruct (toISODate _); try destruct (String.eqb _ _);
    first [apply Hgo | apply Hstop]; simpl; by rewrite ?Hp1, ?Hp2.
Qed.

(** Every offer accumulated is one that [parsePost] returned, with the
    post it comes from. *)
Lemma loop_accumulates posts s offer :
  offer ∈ Index.newParsedOffers (loop posts s) →
  offer ∈ Index.newParsedOffers s
  ∨ ∃ n post postDate parsed found,
      post ∈ posts ∧ parsePost n post = Return (value found) ∧ parsed ∈ found
      ∧ offer = Index.withMetadata post postDate parsed.
Proof.
  revert s. induction posts as [|post rest IH]; intros s; [by left|].
  assert (Hgo : ∀ s1,
            Index.newParsedOffers s1 = Index.newParsedOffers s →
            offer ∈ Index.newParsedOffers (loop rest s1) →
            offer ∈ Index.newParsedOffers s
            ∨ ∃ n p postDate parsed found,
                p ∈ post :: rest ∧ parsePost n p = Return (value found) ∧ parsed ∈ found
                ∧ offer = Index.withMetadata p postDate parsed).
  { intros s1 Hsame Hin. destruct (IH s1 Hin) as [Hold|(n & p & d & o & f & Hp & Hr)].
    - left. by rewrite <- Hsame.
    - right. exists n, p, d, o, f. split; [by apply list_elem_of_further | done]. }
  assert (Hp : ∀ s0, Index.newParsedOffers (Index.pause s0) = Index.newParsedOffers s0).
  { intros s0. unfold Index.pause. by destruct (_ && _); [|destruct (_ >? _)]. }
  simpl. destruct (_ >=? _); [by left|].
  destruct (_ <? 0); [by apply Hgo|].
  destruct (parsePost _ post) as [[| |[|parsed found]]|message] eqn:Hparse;
    try (apply Hgo; simpl; by rewrite Hp).
  - destruct (toISODate _) as [postDate|]; [|apply Hgo; simpl; by rewrite Hp].
    intros Hin. destruct (IH _ Hin) as [Hold|(n & p & d & o & f & Hin' & Hr)].
    + simpl in Hold. rewrite Hp in Hold. simpl in Hold.
      apply elem_of_app in Hold as [Hold|Hnew]; [by left|]. right.
      change (offer ∈ Index.withMetadata post postDate <$> parsed :: found) in Hnew.
      apply list_elem_of_fmap in Hnew as (o & -> & Ho).
      eexists _, post, postDate, o, (parsed :: found).
      split; [apply list_elem_of_here|]. split; [exact Hparse|done].
    + right. exists n, p, d, o, f. split; [by apply list_elem_of_further | done].
  - destruct (String.eqb _ _); [|apply Hgo; simpl; by rewrite Hp].
    simpl. rewrite Hp. by left.
Qed.
End LoopFacts.


(** C6: from a counter at or below the budget of 240 the loop ends at or
    below it; every extraction call costs one unit and is made on a post
    whose vote count is not negative, so a post skipped spends nothing; at
    240 the loop stops where it is, without an error; and from 239, with a
    post left that is not skipped, one call is made and the loop stops at
    240. *)
Theorem C6_budget_cap parsePost posts s :
  Index.apiCallCount s ≤ Index.MAX_DAILY_API_CALLS →
  let s' := Index.loop parsePost posts s in
  Index.MAX_DAILY_API_CALLS = 240
  ∧ Index.apiCallCount s' ≤ 240
  ∧ Spec.spends posts s s'
  ∧ (Index.apiCallCount s = 240 → s' = s)
  ∧ (Index.apiCallCount s = 239 →
     (∃ post, post ∈ posts ∧ 0 ≤ vote_count post) →
     Index.apiCallCount s' = 240
     ∧ ∃ post, Index.extractionCalls s' = Index.extractionCalls s ++ [post]).
Proof.
  intros Hs s'. split; [done|].
  split; [by apply loop_budget|].
  split; [apply loop_spends|].
  split; [intros Hcap; apply loop_at_cap; unfold Index.MAX_DAILY_API_CALLS; lia|].
  intros H239 Hpost.
  assert (Hend : Index.apiCallCount s' = 240) by (by apply loop_last_call).
  split; [done|].
  destruct (loop_spends parsePost posts s) as (new & Hcalls & Hcount & _).
  fold s' in Hcalls, Hcount.
  destruct new as [|post [|post' new]]; simpl in Hcount; [lia| |lia].
  by exists post.
Qed.

Lemma C6_budget_cap_witness :
  let post :=
    {| id := "105"; title := "Offer"; content := "body"; vote_count := 3;
       comment_count := 0; view_count := 10; creation_date := 1730505600000 |} in
  let s :=
    {| Index.newParsedOffers := []; Index.processedCount := 239;
       Index.successCount := 0; Index.lastFetchedPostId := undefined;
       Index.apiCallCount := 239; Index.trace := [] |} in
  let s' := Index.loop (λ _ _, Return null) [post; post; post] s in
  Index.apiCallCount s' = 240
  ∧ ∃ called, Index.extractionCalls s' = Index.extractionCalls s ++ [called].
Proof.
  intros post s.
  apply (C6_budget_cap (λ _ _, Return null) [post; post; post] s).
  - unfold Index.MAX_DAILY_API_CALLS. simpl. lia.
  - reflexivity.
  - exists post. split; [apply list_elem_of_here | simpl; lia].
Defined.

(** C2, on the code: the cursor handed to the save is the id of the last
    post the loop processed.  The posts come newest first, so on a run that
    processes 105 and then 104 the cursor persisted is 104, and the highest
    id processed is 105. *)
Theorem C2_cursor_is_the_last_post_processed :
  (∀ parsePost posts s,
     ∃ k : nat,
       (k ≤ length posts)%nat
       ∧ Index.processedCount (Index.loop parsePost posts s)
         = Index.processedCount s + Z.of_nat k
       ∧ Index.lastFetchedPostId (Index.loop parsePost posts s)
         = from_option (λ post, value (id post)) (Index.lastFetchedPostId s)
             (last (take k posts)))
  ∧ let edge node_id :=
      {| Refresh.node_id := node_id; Refresh.node_title := "Offer";
         Refresh.voteCount := 3; Refresh.creationDate := 1730505600;
         Refresh.commentCount := 0; Refresh.viewCount := 10 |} in
    let env :=
      {| Index.outputPath := "parsed_comps.json";
         Index.metadataPath := ".leetoffer_metadata.json";
         Index.GIST_ID := false; Index.GITHUB_TOKEN := false;
         Index.writable := λ _, true;
         Index.gistOk := false; Index.userOk := false;
         Index.tokenOwnsGist := false; Index.gistScope := false;
         Index.patchOk := false; Index.metadataPatchOk := false;
         Index.now := 1730509200000 |} in
    let listing := λ _ : Z, Refresh.Edges (value [edge "1"; edge "105"; edge "104"]) in
    let topic := λ _ : option Z, value "body" in
    let parsePost := λ (_ : Z) (_ : LeetCodePost), Return null in
    let empty := {| Index.files := ∅; Index.gist := ∅ |} in
    let out := Index.run env listing topic parsePost empty in
    id <$> Index.fetched listing topic undefined = ["105"; "104"]
    ∧ Index.processed out.1 = 2
    ∧ Spec.highestId (Index.fetched listing topic undefined) = Some 105
    ∧ Index.files out.2 !! ".leetoffer_metadata.json"
      = Some (Index.MetadataFile
                {| Index.lastPostId := value "104";
                   Index.lastFetchTime := value 1730509200000;
                   Index.totalOffers := value 0 |}).
Proof.
  split; [intros; apply loop_cursor|].
  repeat split; vm_compute; reflexivity.
Qed.

(** ** The store *)

(** The local files after a save: the write of the offers and the write of
    the metadata go through or fail each on its own. *)
Lemma saveData_files env allOffers lastFetchedPostId disk :
  Index.files (Index.saveData env allOffers lastFetchedPostId disk)
  = let kept :=
      if Index.writable env (Index.outputPath env)
      then <[Index.outputPath env := Index.OffersFile allOffers]> (Index.files disk)
      else Index.files disk in
    if truthy lastFetchedPostId && Index.writable env (Index.metadataPath env)
    then <[Index.metadataPath env :=
             Index.MetadataFile
               {| Index.lastPostId := lastFetchedPostId;
                  Index.lastFetchTime := value (Index.now env);
                  Index.totalOffers := value (Z.of_nat (length allOffers)) |}]> kept
    else kept.
Proof.
  unfold Index.saveData.
  destruct (Index.writable env (Index.outputPath env)),
    (Index.GIST_ID env), (Index.GITHUB_TOKEN env), (Index.gistOk env),
    (Index.userOk env), (Index.tokenOwnsGist env), (Index.gistScope env),
    (Index.patchOk env), (truthy lastFetchedPostId),
    (Index.writable env (Index.metadataPath env)), (Index.metadataPatchOk env);
    reflexivity.
Qed.

(** C8, as the specification words it, fails: the offers are saved with no
    post processed, and no cursor file is written alongside. *)
Lemma C8_dataset_saved_without_cursor :
  let env :=
    {| Index.outputPath := "parsed_comps.json";
       Index.metadataPath := ".leetoffer_metadata.json";
       Index.GIST_ID := false; Index.GITHUB_TOKEN := false;
       Index.writable := λ _, true;
       Index.gistOk := false; Index.userOk := false;
       Index.tokenOwnsGist := false; Index.gistScope := false;
       Index.patchOk := false; Index.metadataPatchOk := false;
       Index.now := 1730509200000 |} in
  let empty := {| Index.files := ∅; Index.gist := ∅ |} in
  let saved := Index.saveData env [] undefined empty in
  Index.files saved !! "parsed_comps.json" = Some (Index.OffersFile [])
  ∧ Index.files saved !! ".leetoffer_metadata.json" = None.
Proof. split; vm_compute; reflexivity. Qed.

(** C8, amended: on a call of the save whose write of the offers goes
    through, the offers file holds the offers handed to the save and, with a
    last processed post id, the cursor file is written when its own write
    goes through, holding that post id, the clock of the save and the number
    of offers saved; with no last processed post id the cursor file is left
    as it was, on every call. *)
Theorem C8_cursor_file env allOffers lastFetchedPostId disk :
  Index.outputPath env ≠ Index.metadataPath env →
  let saved := Index.saveData env allOffers lastFetchedPostId disk in
  let cursor :=
    Index.MetadataFile
      {| Index.lastPostId := lastFetchedPostId;
         Index.lastFetchTime := value (Index.now env);
         Index.totalOffers := value (Z.of_nat (length allOffers)) |} in
  (Index.writable env (Index.outputPath env) = true →
   Index.files saved !! Index.outputPath env = Some (Index.OffersFile allOffers)
   ∧ Index.files saved !! Index.metadataPath env
     = (if truthy lastFetchedPostId && Index.writable env (Index.metadataPath env)
        then Some cursor
        else Index.files disk !! Index.metadataPath env))
  ∧ (truthy lastFetchedPostId = false →
     Index.files saved !! Index.metadataPath env
     = Index.files disk !! Index.metadataPath env).
Proof.
  intros Hpaths saved cursor. unfold saved. rewrite saveData_files. split.
  - intros ->. cbn zeta.
    destruct (truthy lastFetchedPostId && _);
      rewrite ?lookup_insert_eq, ?lookup_insert_ne, ?lookup_insert_eq by done; done.
  - intros ->. cbn [andb]. cbn zeta.
    destruct (Index.writable env (Index.outputPath env));
      rewrite ?lookup_insert_ne by done; done.
Qed.

Lemma C8_cursor_file_witness :
  let env :=
    {| Index.outputPath := "parsed_comps.json";
       Index.metadataPath := ".leetoffer_metadata.json";
       Index.GIST_ID := false; Index.GITHUB_TOKEN := false;
       Index.writable := λ _, true;
       Index.gistOk := false; Index.userOk := false;
       Index.tokenOwnsGist := false; Index.gistScope := false;
       Index.patchOk := false; Index.metadataPatchOk := false;
       Index.now := 1730509200000 |} in
  let empty := {| Index.files := ∅; Index.gist := ∅ |} in
  let saved := Index.saveData env [] (value "105") empty in
  Index.files saved !! "parsed_comps.json" = Some (Index.OffersFile [])
  ∧ Index.files saved !! ".leetoffer_metadata.json"
    = Some (Index.MetadataFile
              {| Index.lastPostId := value "105";
                 Index.lastFetchTime := value 1730509200000;
                 Index.totalOffers := value 0 |}).
Proof.
  intros env empty.
  destruct (C8_cursor_file env [] (value "105") empty) as [Hsaved _]; [discriminate|].
  apply Hsaved. reflexivity.
Defined.

(** ** The validity filter, end to end *)

Lemma perplexity_returns_valid apiKey api n post found offer :
  Index.perplexity apiKey api n post = Return (value found) →
  offer ∈ found → Schema.isValidOffer offer = true.
Proof.
  unfold Index.perplexity, Perplexity.parsePost.
  rewrite Perplexity_single_attempt. unfold Perplexity.attempt.
  destruct apiKey as [| |key]; try discriminate.
  destruct (negb (truthy key)); [discriminate|].
  destruct (_ <? _)%nat; [discriminate|]. simpl.
  destruct (api n) as [| | | | |reply]; try discriminate.
  intros [= Hreply] Hin. by apply (validOffers_valid reply found).
Qed.

(** C7, as the specification words it, fails: a base compensation of 0 is
    present, and the offer is rejected all the same. *)
Lemma C7_present_zero_is_rejected :
  let offer :=
    {| Schema.company := null; Schema.role := null; Schema.yoe := null;
       Schema.base_offer := value 0; Schema.total_offer := null;
       Schema.location := null; Schema.visa_sponsorship := null |} in
  Spec.hasCompanyOrCompensation offer ∧ Schema.isValidOffer offer = false.
Proof. split; [right; left; exact I | reflexivity]. Qed.

(** C7, amended: the filter accepts an offer exactly when its company is a
    non-empty string or one of base and total compensation is a number other
    than 0.  No company and no compensation: rejected.  A non-empty company
    alone: accepted.  A non-zero total compensation alone: accepted.  Every
    offer [parsePost] returns, from either client, has passed the filter,
    and every offer the orchestrator accumulates is such an offer with the
    post it comes from. *)
Theorem C7_validity_filter :
  (∀ offer,
     Schema.isValidOffer offer = true ↔
     nonEmpty (Schema.company offer)
     ∨ nonZero (Schema.base_offer offer) ∨ nonZero (Schema.total_offer offer))
  ∧ (∀ role yoe location visa,
       Schema.isValidOffer
         (Schema.Build_ParsedOffer null role yoe null null location visa) = false)
  ∧ (∀ name, name ≠ "" →
       Schema.isValidOffer
         (Schema.Build_ParsedOffer (value name) null null null null null null) = true)
  ∧ (∀ n, n ≠ 0 →
       Schema.isValidOffer
         (Schema.Build_ParsedOffer null null null null (value n) null null) = true)
  ∧ (∀ reply offers offer,
       Schema.validOffers reply = value offers → offer ∈ offers →
       Schema.isValidOffer offer = true)
  ∧ (∀ apiKey api posts offer,
       offer ∈ Index.newParsedOffers
                 (Index.loop (Index.perplexity apiKey api) posts Index.initial) →
       ∃ post postDate parsed,
         offer = Index.withMetadata post postDate parsed
         ∧ Schema.isValidOffer parsed = true).
Proof.
  split; [exact isValidOffer_truthy|].
  split; [reflexivity|].
  split.
  { intros name Hname. apply isValidOffer_truthy. left. by exists name. }
  split.
  { intros n Hn. apply isValidOffer_truthy. right; right. by exists n. }
  split.
  { intros reply offers offer Hreply Hin.
    by apply (validOffers_valid reply offers). }
  intros apiKey api posts offer Hin.
  apply loop_accumulates in Hin as [Hin|(n & post & postDate & parsed & found & _ & Hr & Hp & ->)].
  { by apply elem_of_nil in Hin. }
  exists post, postDate, parsed. split; [done|].
  by apply (perplexity_returns_valid apiKey api n post found).
Qed.


(** ** A run, end to end *)

(** No cursor, three posts fetched: one with negative votes, one that gives
    two valid offers, one that gives none.  Three posts are processed, one
    is successful, two offers are new, and two extraction calls are made. *)
Example run_three_posts :
  let edge node_id votes :=
    {| Refresh.node_id := node_id; Refresh.node_title := "Offer";
       Refresh.voteCount := votes; Refresh.creationDate := 1730505600;
       Refresh.commentCount := 0; Refresh.viewCount := 10 |} in
  let env :=
    {| Index.outputPath := "parsed_comps.json";
       Index.metadataPath := ".leetoffer_metadata.json";
       Index.GIST_ID := false; Index.GITHUB_TOKEN := false;
       Index.writable := λ _, true;
       Index.gistOk := false; Index.userOk := false;
       Index.tokenOwnsGist := false; Index.gistScope := false;
       Index.patchOk := false; Index.metadataPatchOk := false;
       Index.now := 1730509200000 |} in
  let listing := λ _ : Z,
    Refresh.Edges (value [edge "1" 0; edge "107" (-2); edge "106" 5; edge "105" 1]) in
  let offer company total :=
    Schema.Build_ParsedOffer (value company) undefined undefined undefined
      (value total) undefined undefined in
  let api := λ (n : Z) (_ : nat),
    if n =? 0
    then Perplexity.Content
           (Schema.OfferArray [offer "Acme" 4500000; offer "Initech" 3000000;
                               offer "" 0])
    else Perplexity.Content (Schema.OfferArray []) in
  let out :=
    Index.run env listing (λ _, value "body")
      (Index.perplexity (value "pplx-0123456789") api)
      {| Index.files := ∅; Index.gist := ∅ |} in
  Index.processed out.1 = 3
  ∧ Index.successful out.1 = 1
  ∧ Index.newOffers out.1 = 2
  ∧ Index.totalOffersCount out.1 = 2
  ∧ (Index.company <$> default [] (Index.readOffers (Index.files out.2 !! "parsed_comps.json")))
    = [value "Acme"; value "Initech"]
  ∧ (Index.post_date <$> default [] (Index.readOffers (Index.files out.2 !! "parsed_comps.json")))
    = [value "2024-11-02"; value "2024-11-02"].
Proof. repeat split; vm_compute; reflexivity. Qed.

(** * More of the code *)

(** ** The forum client: bounds, pages, failures *)

Section RefreshMore.
Variable lastPostId : nullable string.
Variable maxPosts : Z.
Variable listing : Z → Refresh.Listing.
Variable topic : option Z → nullable string.

Local Abbreviation scan := (Refresh.scan lastPostId maxPosts topic).
Local Abbreviation pages := (Refresh.pages lastPostId maxPosts listing topic).

(** What a page yields: of the edges before the cursor, those whose body
    can be fetched, as many as the budget still allows. *)
Lemma scan_yields posts tf pp :
  Refresh.yielded (scan posts tf pp)
  = take (Z.to_nat (maxPosts - tf))
      (omap (Observe.postOf topic) (Observe.beforeCursor lastPostId posts)).
Proof.
  revert tf pp. induction posts as [|post rest IH]; intros tf pp; simpl.
  { by rewrite take_nil. }
  destruct (Z.geb_spec tf maxPosts) as [Hge|Hlt]; simpl.
  { replace (Z.to_nat (maxPosts - tf)) with 0%nat by lia. by rewrite take_0. }
  destruct (Refresh.reachedLastPost lastPostId post); simpl.
  { by rewrite take_nil. }
  unfold Observe.postOf at 1.
  destruct (Refresh.getPostContent topic _); simpl; [|apply IH].
  replace (Z.to_nat (maxPosts - tf)) with (S (Z.to_nat (maxPosts - (tf + 1)))) by lia.
  simpl. by rewrite IH.
Qed.

Lemma scan_within posts tf pp :
  tf ≤ maxPosts → Refresh.totalFetched (scan posts tf pp) ≤ maxPosts.
Proof.
  revert tf pp. induction posts as [|post rest IH]; intros tf pp Htf; simpl; [done|].
  destruct (Z.geb_spec tf maxPosts); simpl; [done|].
  destruct (Refresh.reachedLastPost lastPostId post); simpl; [done|].
  destruct (Refresh.getPostContent topic _); simpl; apply IH; lia.
Qed.

Lemma pages_within fuel skip tf found out outcome :
  pages fuel skip tf found = Some (out, outcome) →
  Z.of_nat (length out) ≤ Z.max 0 (maxPosts - tf).
Proof.
  revert skip tf found out outcome.
  induction fuel as [|fuel IH]; intros skip tf found out outcome; simpl.
  - destruct (negb _); [|discriminate]. intros [= <- <-]. simpl. lia.
  - destruct (tf <? maxPosts) eqn:Hlt; simpl; [|intros [= <- <-]; simpl; lia].
    destruct found; simpl; [intros [= <- <-]; simpl; lia|].
    apply Z.ltb_lt in Hlt.
    destruct (listing skip) as [msg|[| |[|p ps]]];
      try (intros [= <- <-]; simpl; lia).
    set (posts := if skip =? 0 then ps else p :: ps).
    destruct (scan_counts lastPostId maxPosts topic posts tf 0) as (Htf & Hpp & Hlen).
    pose proof (scan_within posts tf 0 ltac:(lia)) as Hmax.
    destruct (_ || _).
    { intros [= <- <-]. lia. }
    destruct (pages fuel _ _ _) as [[more outcome']|] eqn:Hmore; [|discriminate].
    intros [= <- <-]. apply IH in Hmore. rewrite length_app. lia.
Qed.
End RefreshMore.

(** At most [maxPosts] posts are yielded, whatever the forum answers. *)
Theorem getLatestPosts_at_most_maxPosts lastPostId maxPosts listing topic :
  Z.of_nat (length (Refresh.getLatestPosts lastPostId maxPosts listing topic).1)
  ≤ Z.max 0 maxPosts.
Proof.
  unfold Refresh.getLatestPosts.
  destruct (getLatestPosts_terminates lastPostId maxPosts listing topic)
    as [[out outcome] Hout].
  rewrite Hout. simpl. apply pages_within in Hout. lia.
Qed.

(** More fuel changes nothing. *)
Lemma pages_fuel_irrelevant lastPostId maxPosts listing topic fuel fuel' skip tf found r :
  Refresh.pages lastPostId maxPosts listing topic fuel skip tf found = Some r →
  (fuel ≤ fuel')%nat →
  Refresh.pages lastPostId maxPosts listing topic fuel' skip tf found = Some r.
Proof.
  revert fuel' skip tf found r.
  induction fuel as [|fuel IH]; intros fuel' skip tf found r; simpl.
  - destruct (negb _) eqn:Hc; [|discriminate]. intros [= <-] _.
    destruct fuel'; simpl; by rewrite Hc.
  - destruct (negb _) eqn:Hc.
    { intros [= <-] _. destruct fuel'; simpl; by rewrite Hc. }
    intros Hr Hle. destruct fuel' as [|fuel']; [lia|]. simpl. rewrite Hc.
    destruct (listing skip) as [msg|[| |[|p ps]]]; try done.
    destruct (_ || _); [done|].
    destruct (Refresh.pages _ _ _ _ fuel _ _ _) as [r'|] eqn:Hmore; [|by destruct r].
    rewrite (IH fuel' _ _ _ r' Hmore) by lia. done.
Qed.

(** [maxPosts] page requests always suffice, and a larger allowance gives
    the same posts. *)
Theorem getLatestPosts_fuel_independent lastPostId maxPosts listing topic fuel :
  (Z.to_nat maxPosts ≤ fuel)%nat →
  Refresh.pages lastPostId maxPosts listing topic fuel 0 0 false
  = Some (Refresh.getLatestPosts lastPostId maxPosts listing topic).
Proof.
  intros Hfuel. unfold Refresh.getLatestPosts.
  destruct (getLatestPosts_terminates lastPostId maxPosts listing topic) as [r Hr].
  rewrite Hr. simpl. by apply (pages_fuel_irrelevant _ _ _ _ _ _ _ _ _ _ Hr).
Qed.

Lemma getLatestPosts_fuel_independent_witness :
  Refresh.pages undefined 3
    (λ _, Refresh.Edges (value [Sample.edge "1" 0; Sample.edge "107" 3]))
    Sample.topic 5 0 0 false
  = Some (Refresh.getLatestPosts undefined 3
            (λ _, Refresh.Edges (value [Sample.edge "1" 0; Sample.edge "107" 3]))
            Sample.topic).
Proof. apply getLatestPosts_fuel_independent. simpl. lia. Defined.

Lemma pages_throw fuel lastPostId maxPosts listing topic skip tf found out message :
  Refresh.pages lastPostId maxPosts listing topic fuel skip tf found
  = Some (out, Throw message) →
  ∃ skip', listing skip' = Refresh.ListingFails message.
Proof.
  revert skip tf found out.
  induction fuel as [|fuel IH]; intros skip tf found out; simpl.
  - destruct (negb _); discriminate.
  - destruct (negb _); [discriminate|].
    destruct (listing skip) as [msg|[| |[|p ps]]] eqn:Hl; try discriminate.
    { intros [= <- <-]. eauto. }
    destruct (_ || _); [discriminate|].
    destruct (Refresh.pages _ _ _ _ fuel _ _ _) as [[more outcome']|] eqn:Hmore;
      [|discriminate].
    intros [= <- ->]. eauto.
Qed.

(** The generator throws only when a request for the listing fails; a body
    that cannot be fetched never ends the sequence with an error. *)
Theorem getLatestPosts_throws_only_on_listing lastPostId maxPosts listing topic message :
  (Refresh.getLatestPosts lastPostId maxPosts listing topic).2 = Throw message →
  ∃ skip, listing skip = Refresh.ListingFails message.
Proof.
  unfold Refresh.getLatestPosts.
  destruct (getLatestPosts_terminates lastPostId maxPosts listing topic)
    as [[out outcome] Hout].
  rewrite Hout. simpl. intros ->. by eapply pages_throw.
Qed.

Lemma getLatestPosts_throws_only_on_listing_witness :
  ∃ skip : Z,
    (λ _ : Z, Refresh.ListingFails "ECONNRESET") skip = Refresh.ListingFails "ECONNRESET".
Proof.
  apply (getLatestPosts_throws_only_on_listing undefined 500
           (λ _, Refresh.ListingFails "ECONNRESET") Sample.topic "ECONNRESET").
  reflexivity.
Defined.

Lemma getLatestPosts_from_pages lastPostId maxPosts listing topic fuel r :
  Refresh.pages lastPostId maxPosts listing topic fuel 0 0 false = Some r →
  Refresh.getLatestPosts lastPostId maxPosts listing topic = r.
Proof.
  intros Hr.
  pose proof (pages_fuel_irrelevant _ _ _ _ fuel (fuel + Z.to_nat maxPosts) _ _ _ _ Hr
                ltac:(lia)) as H1.
  pose proof (getLatestPosts_fuel_independent lastPostId maxPosts listing topic
                (fuel + Z.to_nat maxPosts) ltac:(lia)) as H2.
  congruence.
Qed.

(** A first page shorter than 50 is the whole sequence: its first element
    is dropped as the pinned post, the rest is cut at the cursor, the posts
    whose body cannot be fetched are skipped, and at most [maxPosts] of the
    others are yielded, in the order of the listing. *)
Theorem getLatestPosts_single_page lastPostId maxPosts listing topic p ps :
  listing 0 = Refresh.Edges (value (p :: ps)) →
  Z.of_nat (length (p :: ps)) < Refresh.first →
  Refresh.getLatestPosts lastPostId maxPosts listing topic
  = (take (Z.to_nat maxPosts)
       (omap (Observe.postOf topic) (Observe.beforeCursor lastPostId ps)),
     Return ()).
Proof.
  intros Hl Hshort.
  destruct (Z.ltb_spec 0 maxPosts) as [Hmax|Hmax].
  - apply (getLatestPosts_from_pages _ _ _ _ 1). simpl.
    apply Z.ltb_lt in Hmax. rewrite Hmax, Hl. simpl.
    apply Z.ltb_lt in Hshort. simpl in Hshort. rewrite Hshort. simpl.
    by rewrite scan_yields, Z.sub_0_r.
  - apply (getLatestPosts_from_pages _ _ _ _ 0). simpl.
    apply Z.ltb_ge in Hmax. rewrite Hmax. simpl.
    replace (Z.to_nat maxPosts) with 0%nat by lia. by rewrite take_0.
Qed.

Lemma getLatestPosts_single_page_witness :
  Refresh.getLatestPosts (value "104") 2
    (λ _, Refresh.Edges
            (value [Sample.edge "1" 0; Sample.edge "108" 3; Sample.edge "107" 3;
                    Sample.edge "106" 3; Sample.edge "105" 3; Sample.edge "104" 3]))
    Sample.topic
  = (take (Z.to_nat 2)
       (omap (Observe.postOf Sample.topic)
          (Observe.beforeCursor (value "104")
             [Sample.edge "108" 3; Sample.edge "107" 3; Sample.edge "106" 3;
              Sample.edge "105" 3; Sample.edge "104" 3])),
     Return ()).
Proof.
  apply (getLatestPosts_single_page (value "104") 2 _ Sample.topic (Sample.edge "1" 0)).
  - reflexivity.
  - unfold Refresh.first. simpl. lia.
Defined.

(** A full first page none of whose posts is admitted ends the sequence:
    the second page is not asked for. *)
Theorem getLatestPosts_stops_on_barren_page lastPostId maxPosts listing topic p ps :
  listing 0 = Refresh.Edges (value (p :: ps)) →
  omap (Observe.postOf topic) (Observe.beforeCursor lastPostId ps) = [] →
  Refresh.getLatestPosts lastPostId maxPosts listing topic = ([], Return ()).
Proof.
  intros Hl Hnone.
  destruct (Z.ltb_spec 0 maxPosts) as [Hmax|Hmax].
  - apply (getLatestPosts_from_pages _ _ _ _ 1). simpl.
    apply Z.ltb_lt in Hmax. rewrite Hmax, Hl. simpl.
    pose proof (scan_yields lastPostId maxPosts topic ps 0 0) as Hy.
    rewrite Hnone, take_nil in Hy.
    destruct (scan_counts lastPostId maxPosts topic ps 0 0) as (_ & _ & Hlen).
    rewrite Hy in Hlen. simpl in Hlen.
    replace (Refresh.postsProcessed _ =? 0) with true by (symmetry; apply Z.eqb_eq; lia).
    rewrite Hy. simpl. by rewrite orb_true_r.
  - apply (getLatestPosts_from_pages _ _ _ _ 0). simpl.
    apply Z.ltb_ge in Hmax. by rewrite Hmax.
Qed.

Lemma getLatestPosts_stops_on_barren_page_witness :
  Refresh.getLatestPosts undefined 2000
    (λ _, Refresh.Edges (value (Sample.edge "1" 0 :: replicate 49 (Sample.edge "106" 3))))
    Sample.topic
  = ([], Return ()).
Proof.
  apply (getLatestPosts_stops_on_barren_page undefined 2000 _ Sample.topic
           (Sample.edge "1" 0) (replicate 49 (Sample.edge "106" 3)));
    reflexivity.
Defined.

Lemma scan_without_cursor maxPosts topic posts tf pp :
  Refresh.foundLastPost (Refresh.scan undefined maxPosts topic posts tf pp) = false.
Proof.
  revert tf pp. induction posts as [|e posts IH]; intros tf pp; simpl; [done|].
  destruct (_ >=? _); [done|]. simpl.
  destruct (Refresh.getPostContent topic _); simpl; apply IH.
Qed.

(** Two pages: a full first page that admits a post, then a short one.
    The second page keeps its first element, and the posts of both are
    yielded in order, up to [maxPosts]. *)
Theorem getLatestPosts_two_pages maxPosts listing topic p ps page2 :
  listing 0 = Refresh.Edges (value (p :: ps)) →
  length (p :: ps) = 50%nat →
  omap (Observe.postOf topic) ps ≠ [] →
  listing 50 = Refresh.Edges (value page2) →
  (length page2 < 50)%nat →
  Refresh.getLatestPosts undefined maxPosts listing topic
  = (take (Z.to_nat maxPosts) (omap (Observe.postOf topic) (ps ++ page2)), Return ()).
Proof.
  intros Hl Hfull Hsome Hl2 Hshort.
  assert (Hno : ∀ posts, Observe.beforeCursor undefined posts = posts).
  { induction posts as [|e posts IH]; simpl; by rewrite ?IH. }
  destruct (Z.ltb_spec 0 maxPosts) as [Hmax|Hmax].
  2:{ apply (getLatestPosts_from_pages _ _ _ _ 0). simpl.
      apply Z.ltb_ge in Hmax. rewrite Hmax. simpl.
      replace (Z.to_nat maxPosts) with 0%nat by lia. by rewrite take_0. }
  apply (getLatestPosts_from_pages _ _ _ _ 2).
  cbn [Refresh.pages]. apply Z.ltb_lt in Hmax as Hmaxb. rewrite Hmaxb, Hl.
  cbn [negb andb Z.eqb]. rewrite Hfull.
  set (r := Refresh.scan undefined maxPosts topic ps 0 0).
  pose proof (scan_yields undefined maxPosts topic ps 0 0) as Hy. fold r in Hy.
  rewrite Hno, Z.sub_0_r in Hy.
  destruct (scan_counts undefined maxPosts topic ps 0 0) as (Htf & _ & Hlen).
  fold r in Htf, Hlen.
  assert (Hpos : 0 < Refresh.postsProcessed r).
  { rewrite Z.sub_0_r in Hlen. rewrite <- Hlen, Hy, length_take.
    destruct (omap _ ps); [done|]. simpl. lia. }
  replace (Z.of_nat 50 <? Refresh.first) with false by reflexivity.
  replace (Refresh.postsProcessed r =? 0) with false by (symmetry; apply Z.eqb_neq; lia).
  cbn [orb andb]. change (0 + Refresh.first) with 50.
  assert (Hfound : Refresh.foundLastPost r = false) by apply scan_without_cursor.
  rewrite Hfound.
  assert (Htotal : Refresh.totalFetched r = Z.of_nat (length (Refresh.yielded r))) by lia.
  destruct (Z.ltb_spec (Refresh.totalFetched r) maxPosts) as [Hroom|Hfull'].
  - cbn [negb andb]. rewrite Hl2.
    destruct page2 as [|q page2].
    { rewrite app_nil_r, app_nil_r. by rewrite Hy. }
    cbn [Z.eqb].
    replace (Z.of_nat (length (q :: page2)) <? Refresh.first) with true
      by (symmetry; apply Z.ltb_lt; unfold Refresh.first; lia).
    cbn [orb]. rewrite scan_yields, Hno, Hy, omap_app.
    rewrite Htotal, Hy. f_equal.
    rewrite take_app, length_take. f_equal. f_equal.
    generalize (length (omap (Observe.postOf topic) ps)). intros k. f_equal. lia.
  - cbn [negb andb]. rewrite app_nil_r, Hy, omap_app.
    rewrite take_app_le; [done|].
    rewrite Htotal, Hy, length_take in Hfull'. lia.
Qed.

Lemma getLatestPosts_two_pages_witness :
  Refresh.getLatestPosts undefined 2000
    (λ skip, if skip =? 0
             then Refresh.Edges
                    (value (Sample.edge "1" 0 :: replicate 49 (Sample.edge "107" 3)))
             else Refresh.Edges (value [Sample.edge "57" 3]))
    Sample.topic
  = (take (Z.to_nat 2000)
       (omap (Observe.postOf Sample.topic)
          (replicate 49 (Sample.edge "107" 3) ++ [Sample.edge "57" 3])),
     Return ()).
Proof.
  apply (getLatestPosts_two_pages 2000 _ Sample.topic (Sample.edge "1" 0)
           (replicate 49 (Sample.edge "107" 3)) [Sample.edge "57" 3]).
  - reflexivity.
  - reflexivity.
  - discriminate.
  - reflexivity.
  - simpl. lia.
Defined.

(** ** The extraction clients: what a post can cost *)

Section GeminiMore.
Variable apiKey : nullable string.
Variable model : nat → Gemini.Generation.

Local Abbreviation parsePost_fuel := (Gemini.parsePost_fuel apiKey model).

Lemma Gemini_retries_never_throw fuel retryCount events message :
  (0 < retryCount)%nat →
  parsePost_fuel fuel retryCount ≠ Some (events, Throw message).
Proof.
  revert retryCount events. induction fuel as [|fuel IH]; intros retryCount events Hpos; simpl;
    [discriminate|].
  destruct (negb (truthy apiKey)); [discriminate|].
  destruct (model retryCount) as [error|reply]; [|discriminate].
  destruct (strictEq _ _); [|discriminate].
  replace (retryCount =? 0)%nat with false by (symmetry; apply Nat.eqb_neq; lia).
  rewrite andb_false_r.
  destruct (_ <? _)%nat; [|discriminate].
  destruct (parsePost_fuel fuel _) as [[more outcome]|] eqn:Hmore; [|discriminate].
  intros [= <- ->]. by apply (IH (retryCount + 1)%nat more ltac:(lia)).
Qed.

Lemma Gemini_events_bounded fuel retryCount events outcome :
  parsePost_fuel fuel retryCount = Some (events, outcome) →
  (Observe.modelCalls events + retryCount ≤ 4 `max` S retryCount)%nat
  ∧ (Observe.sleeps events + retryCount ≤ 3 `max` retryCount)%nat.
Proof.
  revert retryCount events outcome.
  induction fuel as [|fuel IH]; intros retryCount events outcome; simpl; [discriminate|].
  destruct (negb (truthy apiKey)); [intros [= <- <-]; simpl; lia|].
  destruct (model retryCount) as [error|reply];
    [|intros [= <- <-]; unfold Observe.modelCalls, Observe.sleeps; simpl; lia].
  destruct (strictEq _ _);
    [|intros [= <- <-]; unfold Observe.modelCalls, Observe.sleeps; simpl; lia].
  destruct (_ && _);
    [intros [= <- <-]; unfold Observe.modelCalls, Observe.sleeps; simpl; lia|].
  destruct (Nat.ltb_spec retryCount 3) as [Hlt|Hge];
    [|intros [= <- <-]; unfold Observe.modelCalls, Observe.sleeps; simpl; lia].
  destruct (parsePost_fuel fuel _) as [[more outcome']|] eqn:Hmore; [|discriminate].
  intros [= <- <-]. apply IH in Hmore.
  unfold Observe.modelCalls, Observe.sleeps in *. simpl. lia.
Qed.

Lemma Gemini_first_attempt :
  Gemini.parsePost apiKey model
  = if negb (truthy apiKey) then Some ([], Return null) else
    match model 0%nat with
    | Gemini.Text reply => Some ([ModelCall 0], Return (Schema.validOffers reply))
    | Gemini.Fails error =>
        if strictEq (Gemini.status error) 429 then
          if truthy (Gemini.findDetail error Gemini.QuotaFailure) then
            Some ([ModelCall 0], Throw QUOTA_EXCEEDED)
          else
            match parsePost_fuel 3 1 with
            | Some (events, outcome) =>
                Some (ModelCall 0 :: Sleep (Gemini.delayOf error 0) :: events, outcome)
            | None => None
            end
        else Some ([ModelCall 0], Return null)
    end.
Proof.
  unfold Gemini.parsePost.
  change (parsePost_fuel 4 0) with
    (if negb (truthy apiKey) then Some ([], Return null) else
     match model 0%nat with
     | Gemini.Text reply => Some ([ModelCall 0], Return (Schema.validOffers reply))
     | Gemini.Fails error =>
         if strictEq (Gemini.status error) 429 then
           if truthy (Gemini.findDetail error Gemini.QuotaFailure) && true then
             Some ([ModelCall 0], Throw QUOTA_EXCEEDED)
           else
             match parsePost_fuel 3 1 with
             | Some (events, outcome) =>
                 Some (ModelCall 0 :: Sleep (Gemini.delayOf error 0) :: events, outcome)
             | None => None
             end
         else Some ([ModelCall 0], Return null)
     end).
  destruct (negb _); [done|]. destruct (model 0%nat); [|done].
  by rewrite andb_true_r.
Qed.
End GeminiMore.

(** The client of [packages/leetcomp] rejects only with [QUOTA_EXCEEDED],
    and only when the first attempt fails with status 429 and a
    [QuotaFailure] detail; nothing is retried before. *)
Theorem Gemini_throws_only_quota apiKey model events message :
  Gemini.parsePost apiKey model = Some (events, Throw message) →
  message = QUOTA_EXCEEDED ∧ events = [ModelCall 0]
  ∧ ∃ error,
      model 0%nat = Gemini.Fails error
      ∧ strictEq (Gemini.status error) 429 = true
      ∧ truthy (Gemini.findDetail error Gemini.QuotaFailure) = true.
Proof.
  rewrite Gemini_first_attempt.
  destruct (negb (truthy apiKey)); [discriminate|].
  destruct (model 0%nat) as [error|reply]; [|discriminate].
  destruct (strictEq _ _) eqn:H429; [|discriminate].
  destruct (truthy (Gemini.findDetail _ _)) eqn:Hq.
  { intros H. inversion H; subst. repeat split; eauto. }
  destruct (Gemini.parsePost_fuel apiKey model 3 1) as [[more outcome]|] eqn:Hmore;
    [|discriminate].
  intros [= <- ->]. by apply Gemini_retries_never_throw in Hmore; [|lia].
Qed.

Lemma Gemini_throws_only_quota_witness :
  QUOTA_EXCEEDED = QUOTA_EXCEEDED ∧ [ModelCall 0] = [ModelCall 0]
  ∧ ∃ error,
      Gemini.Fails (Sample.tooManyRequests (value [Sample.quotaFailure]))
      = Gemini.Fails error
      ∧ strictEq (Gemini.status error) 429 = true
      ∧ truthy (Gemini.findDetail error Gemini.QuotaFailure) = true.
Proof.
  apply (Gemini_throws_only_quota (value "key")
           (λ _, Gemini.Fails (Sample.tooManyRequests (value [Sample.quotaFailure])))
           [ModelCall 0] QUOTA_EXCEEDED).
  reflexivity.
Defined.

(** Whatever the model answers, one post costs at most four requests and
    three pauses. *)
Theorem Gemini_at_most_four_requests apiKey model :
  ∃ events outcome,
    Gemini.parsePost apiKey model = Some (events, outcome)
    ∧ (Observe.modelCalls events ≤ 4)%nat ∧ (Observe.sleeps events ≤ 3)%nat.
Proof.
  destruct (Gemini_parsePost_total apiKey model) as [[events outcome] H].
  exists events, outcome. split; [done|].
  apply Gemini_events_bounded in H. lia.
Qed.

(** Status 429 on all four attempts, no [QuotaFailure] on the first, no
    [RetryInfo] at all: pauses of 2, 4 and 8 seconds, then "no offers". *)
Theorem Gemini_backoff_two_four_eight apiKey model (error : nat → Gemini.ApiError) :
  truthy apiKey = true →
  (∀ k, (k ≤ 3)%nat →
        model k = Gemini.Fails (error k)
        ∧ strictEq (Gemini.status (error k)) 429 = true
        ∧ Gemini.findDetail (error k) Gemini.RetryInfo = undefined) →
  truthy (Gemini.findDetail (error 0%nat) Gemini.QuotaFailure) = false →
  Gemini.parsePost apiKey model
  = Some ([ModelCall 0; Sleep (Exact 2000); ModelCall 1; Sleep (Exact 4000);
           ModelCall 2; Sleep (Exact 8000); ModelCall 3], Return null).
Proof.
  intros Hkey Hmodel Hquota.
  rewrite (Gemini_rate_limit_backoff apiKey model error Hkey); [|intros k Hk; destruct (Hmodel k Hk) as (? & ? & _); done|done].
  destruct (Hmodel 0%nat) as (_ & _ & R0); [lia|].
  destruct (Hmodel 1%nat) as (_ & _ & R1); [lia|].
  destruct (Hmodel 2%nat) as (_ & _ & R2); [lia|].
  by rewrite !Gemini_delay_backoff.
Qed.

Lemma Gemini_backoff_two_four_eight_witness :
  Gemini.parsePost (value "key") (λ _, Gemini.Fails (Sample.tooManyRequests undefined))
  = Some ([ModelCall 0; Sleep (Exact 2000); ModelCall 1; Sleep (Exact 4000);
           ModelCall 2; Sleep (Exact 8000); ModelCall 3], Return null).
Proof.
  apply (Gemini_backoff_two_four_eight (value "key") _
           (λ _, Sample.tooManyRequests undefined)).
  - reflexivity.
  - intros k _. repeat split.
  - reflexivity.
Defined.

(** A first attempt that fails with 429 and a [RetryInfo] detail is retried
    after the delay the server names, and the answer of the second attempt
    is the result. *)
Theorem Gemini_server_delay_then_success apiKey model error detail delay reply :
  truthy apiKey = true →
  model 0%nat = Gemini.Fails error →
  strictEq (Gemini.status error) 429 = true →
  truthy (Gemini.findDetail error Gemini.QuotaFailure) = false →
  Gemini.findDetail error Gemini.RetryInfo = value detail →
  Gemini.retryDelay detail = value delay → delay ≠ "" →
  model 1%nat = Gemini.Text reply →
  Gemini.parsePost apiKey model
  = Some ([ModelCall 0; Sleep (OfRetryDelay delay); ModelCall 1],
          Return (Schema.validOffers reply)).
Proof.
  intros Hkey H0 H429 Hq Hinfo Hdelay Hne H1. unfold Gemini.parsePost.
  rewrite (Gemini_retry apiKey model 3 0 error Hkey H0 H429) by (by rewrite ?Hq || lia).
  simpl. rewrite Hkey, H1. simpl.
  by rewrite (Gemini_delay_suggested error 0 detail delay).
Qed.

Lemma Gemini_server_delay_then_success_witness :
  Gemini.parsePost (value "key")
    (λ retryCount,
       match retryCount with
       | O => Gemini.Fails (Sample.tooManyRequests (value [Sample.retryInfo "37s"]))
       | _ => Gemini.Text (Schema.OfferArray [Sample.parsed "Acme" 4500000])
       end)
  = Some ([ModelCall 0; Sleep (OfRetryDelay "37s"); ModelCall 1],
          Return (Schema.validOffers (Schema.OfferArray [Sample.parsed "Acme" 4500000]))).
Proof.
  apply (Gemini_server_delay_then_success (value "key") _
           (Sample.tooManyRequests (value [Sample.retryInfo "37s"]))
           (Sample.retryInfo "37s") "37s");
    first [reflexivity | discriminate].
Defined.

Lemma Gemini_quota_on_first_attempt_witness :
  Gemini.parsePost (value "key")
    (λ _, Gemini.Fails (Sample.tooManyRequests (value [Sample.quotaFailure])))
  = Some ([ModelCall 0], Throw QUOTA_EXCEEDED).
Proof.
  apply (Gemini_quota_on_first_attempt (value "key") _
           (Sample.tooManyRequests (value [Sample.quotaFailure])));
    reflexivity.
Defined.

(** The client of [packages/leetoffer] with a usable key: one request, and
    offers only from an answer that is [ok]; every other answer, a 429
    included, gives "no offers". *)
Theorem Perplexity_one_request apiKey api key :
  apiKey = value key → (10 ≤ String.length key)%nat →
  Perplexity.parsePost apiKey api
  = Some ([ModelCall 0],
          Return match api 0%nat with
                 | Perplexity.Content reply => Schema.validOffers reply
                 | _ => null
                 end).
Proof.
  intros -> Hlen. unfold Perplexity.parsePost.
  rewrite Perplexity_single_attempt. unfold Perplexity.attempt.
  destruct key as [|c key]; [simpl in Hlen; lia|].
  cbn [truthy truthy_string negb].
  destruct (Nat.ltb_spec (String.length (String c key)) 10) as [Hlt|_]; [lia|].
  by destruct (api 0%nat).
Qed.

Lemma Perplexity_one_request_witness :
  Perplexity.parsePost (value "pplx-0123456789")
    (λ _, Perplexity.Content (Schema.OfferArray [Sample.parsed "Acme" 4500000]))
  = Some ([ModelCall 0],
          Return (Schema.validOffers (Schema.OfferArray [Sample.parsed "Acme" 4500000]))).
Proof.
  apply (Perplexity_one_request (value "pplx-0123456789")
           (λ _, Perplexity.Content (Schema.OfferArray [Sample.parsed "Acme" 4500000]))
           "pplx-0123456789");
    [reflexivity | simpl; lia].
Defined.

(** Without a key, or with a key shorter than 10 characters, no request
    is sent and the post gives "no offers". *)
Theorem Perplexity_unusable_key apiKey api :
  (∀ key, apiKey = value key → (String.length key < 10)%nat) →
  Perplexity.parsePost apiKey api = Some ([], Return null).
Proof.
  intros Hkey. unfold Perplexity.parsePost.
  rewrite Perplexity_single_attempt. unfold Perplexity.attempt.
  destruct apiKey as [| |key]; try done.
  destruct (negb (truthy key)); [done|].
  specialize (Hkey key eq_refl). by destruct (Nat.ltb_spec (String.length key) 10); [|lia].
Qed.

Lemma Perplexity_unusable_key_witness :
  Perplexity.parsePost (value "short")
    (λ _, Perplexity.Content (Schema.OfferArray [Sample.parsed "Acme" 4500000]))
  = Some ([], Return null).
Proof.
  apply Perplexity_unusable_key. intros key [= <-]. simpl. lia.
Defined.

(** ** The merge and the loop *)

Lemma uniqueNewOffers_nil existingOffers newParsedOffers :
  (∀ offer, offer ∈ newParsedOffers →
            ∃ e, e ∈ existingOffers ∧ Index.offerKey e = Index.offerKey offer) →
  Index.uniqueNewOffers existingOffers newParsedOffers = [].
Proof.
  intros Hall.
  destruct (Index.uniqueNewOffers existingOffers newParsedOffers) as [|offer rest] eqn:Hu;
    [done|].
  assert (Hin : offer ∈ Index.uniqueNewOffers existingOffers newParsedOffers)
    by (rewrite Hu; apply list_elem_of_here).
  apply elem_of_uniqueNewOffers in Hin as [Hin Hkeys].
  destruct (Hall offer Hin) as (e & He & Heq). by destruct (Hkeys e He).
Qed.

(** Merging the same batch a second time adds nothing. *)
Theorem merge_is_idempotent existingOffers newParsedOffers :
  Index.allOffers (Index.allOffers existingOffers newParsedOffers) newParsedOffers
  = Index.allOffers existingOffers newParsedOffers.
Proof.
  unfold Index.allOffers at 1.
  rewrite uniqueNewOffers_nil; [by rewrite app_nil_r|].
  intros offer Hin.
  destruct (decide (Index.offerKey offer ∈ Index.existingOfferKeys existingOffers))
    as [Hold|Hnew].
  - apply elem_of_existingOfferKeys in Hold as (e & He & Heq).
    exists e. split; [|done]. unfold Index.allOffers. apply elem_of_app. by left.
  - exists offer. split; [|done]. unfold Index.allOffers. apply elem_of_app. right.
    apply elem_of_uniqueNewOffers. split; [done|].
    intros e He Heq. apply Hnew, elem_of_existingOfferKeys. eauto.
Qed.

Section LoopMore.
Variable parsePost : Z → LeetCodePost → Outcome (nullable (list Schema.ParsedOffer)).
Local Abbreviation loop := (Index.loop parsePost).

Lemma pause_keeps s :
  Index.newParsedOffers (Index.pause s) = Index.newParsedOffers s
  ∧ Index.processedCount (Index.pause s) = Index.processedCount s
  ∧ Index.successCount (Index.pause s) = Index.successCount s
  ∧ Index.lastFetchedPostId (Index.pause s) = Index.lastFetchedPostId s
  ∧ Index.apiCallCount (Index.pause s) = Index.apiCallCount s.
Proof. unfold Index.pause. by destruct (_ && _); [|destruct (_ >? _)]. Qed.

(** Successes are among the calls, calls among the posts processed, and
    these among the posts of the stream. *)
Lemma loop_counts posts s :
  0 ≤ Index.successCount (loop posts s) - Index.successCount s
  ∧ Index.successCount (loop posts s) - Index.successCount s
    ≤ Index.apiCallCount (loop posts s) - Index.apiCallCount s
  ∧ Index.apiCallCount (loop posts s) - Index.apiCallCount s
    ≤ Index.processedCount (loop posts s) - Index.processedCount s
  ∧ Index.processedCount (loop posts s) - Index.processedCount s
    ≤ Z.of_nat (length posts).
Proof.
  revert s. induction posts as [|post rest IH]; intros s; [simpl; lia|].
  cbn [Index.loop]. destruct (_ >=? _); [simpl; lia|].
  destruct (_ <? 0).
  { specialize (IH (Index.log (Index.Skipped post) (Index.begin post s))).
    simpl in IH. simpl length. lia. }
  destruct (pause_keeps (Index.begin post s)) as (_ & Hp & Hs & _ & Hc).
  simpl in Hp, Hs, Hc.
  destruct (parsePost _ post) as [[| |[|offer offers]]|message];
    try destruct (toISODate _); try destruct (String.eqb _ _);
    try (match goal with |- context [loop rest ?s1] => specialize (IH s1) end;
         simpl in IH; rewrite ?Hp, ?Hs, ?Hc in IH);
    simpl; rewrite ?Hp, ?Hs, ?Hc; lia.
Qed.

(** The loop leaves posts of the stream aside only at the cap or after
    [QUOTA_EXCEEDED]. *)
Lemma loop_stops posts s :
  Index.processedCount (loop posts s) = Index.processedCount s + Z.of_nat (length posts)
  ∨ Index.MAX_DAILY_API_CALLS ≤ Index.apiCallCount (loop posts s)
  ∨ ∃ post,
      last (Index.extractionCalls (loop posts s)) = Some post
      ∧ parsePost (Index.apiCallCount (loop posts s) - 1) post = Throw QUOTA_EXCEEDED.
Proof.
  revert s. induction posts as [|post rest IH]; intros s; [left; simpl; lia|].
  assert (Hgo : ∀ s1, Index.processedCount s1 = Index.processedCount s + 1 →
            Index.processedCount (loop rest s1)
            = Index.processedCount s + Z.of_nat (length (post :: rest))
            ∨ Index.MAX_DAILY_API_CALLS ≤ Index.apiCallCount (loop rest s1)
            ∨ ∃ p, last (Index.extractionCalls (loop rest s1)) = Some p
                   ∧ parsePost (Index.apiCallCount (loop rest s1) - 1) p
                     = Throw QUOTA_EXCEEDED).
  { intros s1 Hp. destruct (IH s1) as [H|[H|H]]; [left|right; by left|right; by right].
    rewrite H, Hp. simpl length. lia. }
  cbn [Index.loop]. destruct (Z.geb_spec (Index.apiCallCount s) Index.MAX_DAILY_API_CALLS).
  { right. by left. }
  destruct (_ <? 0); [by apply Hgo|].
  destruct (pause_keeps (Index.begin post s)) as (_ & Hp & _ & _ & Hc).
  simpl in Hp, Hc.
  destruct (parsePost _ post) as [[| |[|offer offers]]|message] eqn:Hparse;
    try (apply Hgo; simpl; by rewrite Hp).
  - destruct (toISODate _); apply Hgo; simpl; by rewrite Hp.
  - destruct (String.eqb_spec message QUOTA_EXCEEDED) as [->|_];
      [|apply Hgo; simpl; by rewrite Hp].
    right. right. exists post. split.
    + rewrite extractionCalls_call. apply last_snoc.
    + simpl. replace (Index.apiCallCount (Index.pause (Index.begin post s)) + 1 - 1)
        with (Index.apiCallCount (Index.pause (Index.begin post s))) by lia.
      done.
Qed.
End LoopMore.

(** With an extraction client that never signals quota exhaustion and a
    budget that covers the stream, every post is processed and the cursor is
    the id of the last one. *)
Theorem loop_processes_the_whole_stream parsePost posts s :
  (∀ n post, parsePost n post ≠ Throw QUOTA_EXCEEDED) →
  Index.apiCallCount s + Z.of_nat (length posts) ≤ Index.MAX_DAILY_API_CALLS →
  Index.processedCount (Index.loop parsePost posts s)
  = Index.processedCount s + Z.of_nat (length posts)
  ∧ Index.lastFetchedPostId (Index.loop parsePost posts s)
    = from_option (λ post, value (id post)) (Index.lastFetchedPostId s) (last posts).
Proof.
  intros Hquota Hbudget.
  assert (Hall : Index.processedCount (Index.loop parsePost posts s)
                 = Index.processedCount s + Z.of_nat (length posts)).
  { pose proof (loop_counts parsePost posts s) as (_ & _ & Hc & Hp).
    destruct (loop_stops parsePost posts s) as [H|[H|(post & _ & H)]];
      [done|lia|by destruct (Hquota _ _ H)]. }
  split; [done|].
  destruct (loop_cursor parsePost posts s) as (k & Hk & Hcount & Hlast).
  rewrite Hlast. replace k with (length posts) by lia. by rewrite firstn_all.
Qed.

Lemma loop_processes_the_whole_stream_witness :
  let posts := [Sample.post "107" 3; Sample.post "106" (-1); Sample.post "105" 0] in
  let s := Index.loop (λ _ _, Throw "socket hang up") posts Index.initial in
  Index.processedCount s = Index.processedCount Index.initial + Z.of_nat (length posts)
  ∧ Index.lastFetchedPostId s
    = from_option (λ post, value (id post)) (Index.lastFetchedPostId Index.initial)
        (last posts).
Proof.
  intros posts.
  apply (loop_processes_the_whole_stream (λ _ _, Throw "socket hang up") posts
           Index.initial).
  - intros n post. discriminate.
  - unfold Index.MAX_DAILY_API_CALLS. simpl. lia.
Defined.

(** Behind the client of [packages/leetoffer], which never signals quota
    exhaustion, the loop leaves posts aside only when the counter has come
    to 240. *)
Theorem leetoffer_loop_stops_only_at_cap apiKey api posts s :
  Index.apiCallCount s ≤ Index.MAX_DAILY_API_CALLS →
  let s' := Index.loop (Index.perplexity apiKey api) posts s in
  Index.processedCount s' = Index.processedCount s + Z.of_nat (length posts)
  ∨ Index.apiCallCount s' = 240.
Proof.
  intros Hs s'.
  pose proof (loop_budget (Index.perplexity apiKey api) posts s Hs) as Hcap.
  destruct (loop_stops (Index.perplexity apiKey api) posts s) as [H|[H|(post & _ & H)]].
  - by left.
  - right. unfold s'. unfold Index.MAX_DAILY_API_CALLS in *. lia.
  - destruct (perplexity_never_throws apiKey api
                (Index.apiCallCount (Index.loop (Index.perplexity apiKey api) posts s) - 1)
                post) as [offers Hret].
    congruence.
Qed.

Lemma leetoffer_loop_stops_only_at_cap_witness :
  let posts := [Sample.post "107" 3; Sample.post "106" 3] in
  let api := λ (_ : Z) (_ : nat), Perplexity.NotOk 429
               {| Perplexity.errorText := "quota"; Perplexity.json := None |} in
  let s' := Index.loop (Index.perplexity (value "pplx-0123456789") api) posts Index.initial in
  Index.processedCount s' = Index.processedCount Index.initial + Z.of_nat (length posts)
  ∨ Index.apiCallCount s' = 240.
Proof.
  intros posts api.
  apply (leetoffer_loop_stops_only_at_cap (value "pplx-0123456789") api posts Index.initial).
  unfold Index.MAX_DAILY_API_CALLS. simpl. lia.
Defined.

(** ** The store: what is loaded, what is mirrored *)

(** What a save wrote is what the next run loads: the offers, the cursor
    and the time of the save. *)
Theorem save_then_load env allOffers lastFetchedPostId disk :
  Index.outputPath env ≠ Index.metadataPath env →
  Index.writable env (Index.outputPath env) = true →
  Index.writable env (Index.metadataPath env) = true →
  truthy lastFetchedPostId = true →
  allOffers ≠ [] →
  Index.loadExistingData env (Index.saveData env allOffers lastFetchedPostId disk)
  = (allOffers, lastFetchedPostId, value (Index.now env)).
Proof.
  intros Hpaths Hout Hmeta Hlast Hsome.
  unfold Index.loadExistingData, Index.loadExistingDataset. rewrite saveData_files, Hout, Hmeta, Hlast.
  cbn [andb]. cbv zeta.
  rewrite lookup_insert_ne by done. rewrite !lookup_insert_eq.
  destruct allOffers as [|offer rest]; [done|]. by cbn.
Qed.

Lemma save_then_load_witness :
  Index.loadExistingData Sample.env
    (Index.saveData Sample.env [Sample.offer "Acme" "105"] (value "105") Sample.empty)
  = ([Sample.offer "Acme" "105"], value "105", value (Index.now Sample.env)).
Proof.
  apply (save_then_load Sample.env [Sample.offer "Acme" "105"] (value "105") Sample.empty);
    first [reflexivity | discriminate].
Defined.

(** A local dataset that is not empty is the one loaded, with the cursor of
    the local metadata file: the gist is not looked at. *)
Theorem load_prefers_local env disk offers :
  Index.files disk !! Index.outputPath env = Some (Index.OffersFile offers) →
  offers ≠ [] →
  Index.loadExistingData env disk
  = match Index.readMetadata (Index.files disk !! Index.metadataPath env) with
    | Some metadata => (offers, Index.lastPostId metadata, Index.lastFetchTime metadata)
    | None => (offers, undefined, undefined)
    end.
Proof.
  intros Hfile Hsome. unfold Index.loadExistingData, Index.loadExistingDataset. rewrite Hfile.
  destruct offers as [|offer rest]; [done|]. cbn.
  by destruct (Index.files disk !! Index.metadataPath env) as [[| |]|].
Qed.

Lemma load_prefers_local_witness :
  let disk :=
    {| Index.files := {["parsed_comps.json" := Index.OffersFile [Sample.offer "Acme" "105"]]};
       Index.gist :=
         {[Index.parsed_comps := Index.OffersFile [Sample.offer "Initech" "99"]]} |} in
  Index.loadExistingData Sample.envWithGist disk
  = match Index.readMetadata
            (Index.files disk !! Index.metadataPath Sample.envWithGist) with
    | Some metadata =>
        ([Sample.offer "Acme" "105"], Index.lastPostId metadata, Index.lastFetchTime metadata)
    | None => ([Sample.offer "Acme" "105"], undefined, undefined)
    end.
Proof.
  intros disk.
  apply (load_prefers_local Sample.envWithGist disk [Sample.offer "Acme" "105"]);
    first [reflexivity | discriminate].
Defined.

(** A local dataset file that holds an object is not empty to the source:
    the gist is not read, whatever it holds, the cursor is the one of the
    local metadata file, and the run rejects at the merge. *)
Lemma load_object_leaves_gist_unread env disk object :
  Index.files disk !! Index.outputPath env = Some (Index.MetadataFile object) →
  let loaded := Index.loadExistingData env disk in
  Index.rejects env disk = true
  ∧ (loaded.1.2, loaded.2)
    = match Index.readMetadata (Index.files disk !! Index.metadataPath env) with
      | Some metadata => (Index.lastPostId metadata, Index.lastFetchTime metadata)
      | None => (undefined, undefined)
      end.
Proof.
  intros Hfile loaded.
  unfold loaded, Index.rejects, Index.loadExistingData, Index.loadExistingDataset.
  rewrite Hfile. cbn.
  by destruct (Index.files disk !! Index.metadataPath env) as [[| |]|].
Qed.

(** The run does not reject when the dataset files, the local one and the
    one of the gist, hold arrays, cannot be parsed or are missing. *)
Lemma run_of_arrays env disk :
  (∀ object, Index.files disk !! Index.outputPath env ≠ Some (Index.MetadataFile object)) →
  (∀ object, Index.gist disk !! Index.parsed_comps ≠ Some (Index.MetadataFile object)) →
  Index.rejects env disk = false.
Proof.
  intros Hlocal Hgist. unfold Index.rejects, Index.loadExistingDataset.
  destruct (Index.files disk !! Index.outputPath env) as [[offers|object|]|];
    [|by destruct (Hlocal object)|..];
    (destruct (Index.gist disk !! Index.parsed_comps) as [[gistOffers|object|]|];
       [|by destruct (Hgist object)|..]);
    cbn;
    destruct (_ && _);
    destruct (Index.readMetadata (Index.gist disk !! Index.leetoffer_metadata));
    cbn; repeat case_match; done.
Qed.

(** With no local dataset (the file is missing, cannot be parsed, or holds
    the empty array), a gist that holds the offers and a cursor gives both,
    and the local metadata file is not read. *)
Theorem load_falls_back_to_gist env disk offers metadata :
  Index.files disk !! Index.outputPath env = None
  ∨ Index.files disk !! Index.outputPath env = Some Index.Garbage
  ∨ Index.files disk !! Index.outputPath env = Some (Index.OffersFile []) →
  Index.GIST_ID env = true → Index.gistOk env = true →
  Index.gist disk !! Index.parsed_comps = Some (Index.OffersFile offers) →
  Index.gist disk !! Index.leetoffer_metadata = Some (Index.MetadataFile metadata) →
  truthy (Index.lastPostId metadata) = true →
  Index.loadExistingData env disk
  = (offers, Index.lastPostId metadata, Index.lastFetchTime metadata).
Proof.
  intros Hlocal Hid Hok Hoffers Hmeta Hcursor. unfold Index.loadExistingData, Index.loadExistingDataset.
  rewrite Hid, Hok, Hoffers, Hmeta.
  destruct Hlocal as [-> | [-> | ->]]; cbn; by rewrite Hcursor.
Qed.

Lemma load_falls_back_to_gist_witness :
  let disk :=
    {| Index.files :=
         {[".leetoffer_metadata.json" := Index.MetadataFile (Sample.metadata "90")]};
       Index.gist :=
         <[Index.leetoffer_metadata := Index.MetadataFile (Sample.metadata "105")]>
           {[Index.parsed_comps := Index.OffersFile [Sample.offer "Acme" "105"]]} |} in
  Index.loadExistingData Sample.envWithGist disk
  = ([Sample.offer "Acme" "105"], Index.lastPostId (Sample.metadata "105"),
     Index.lastFetchTime (Sample.metadata "105")).
Proof.
  intros disk.
  apply (load_falls_back_to_gist Sample.envWithGist disk [Sample.offer "Acme" "105"]
           (Sample.metadata "105"));
    first [reflexivity | left; reflexivity].
Defined.

(** The offers may come from the gist and the cursor from the local file:
    with no local dataset (the file is missing, cannot be parsed, or holds
    the empty array) and a gist that holds offers and no metadata, the
    cursor is the one of the local metadata file. *)
Theorem load_mixes_sources env disk offers metadata :
  Index.files disk !! Index.outputPath env = None
  ∨ Index.files disk !! Index.outputPath env = Some Index.Garbage
  ∨ Index.files disk !! Index.outputPath env = Some (Index.OffersFile []) →
  Index.GIST_ID env = true → Index.gistOk env = true →
  Index.gist disk !! Index.parsed_comps = Some (Index.OffersFile offers) →
  Index.gist disk !! Index.leetoffer_metadata = None →
  Index.files disk !! Index.metadataPath env = Some (Index.MetadataFile metadata) →
  Index.loadExistingData env disk
  = (offers, Index.lastPostId metadata, Index.lastFetchTime metadata).
Proof.
  intros Hlocal Hid Hok Hoffers Hmeta Hcursor. unfold Index.loadExistingData, Index.loadExistingDataset.
  rewrite Hid, Hok, Hoffers, Hmeta, Hcursor.
  by destruct Hlocal as [-> | [-> | ->]].
Qed.

Lemma load_mixes_sources_witness :
  let disk :=
    {| Index.files :=
         <["parsed_comps.json" := Index.OffersFile []]>
           {[".leetoffer_metadata.json" := Index.MetadataFile (Sample.metadata "90")]};
       Index.gist :=
         {[Index.parsed_comps := Index.OffersFile [Sample.offer "Acme" "105"]]} |} in
  Index.loadExistingData Sample.envWithGist disk
  = ([Sample.offer "Acme" "105"], Index.lastPostId (Sample.metadata "90"),
     Index.lastFetchTime (Sample.metadata "90")).
Proof.
  intros disk.
  apply (load_mixes_sources Sample.envWithGist disk [Sample.offer "Acme" "105"]
           (Sample.metadata "90"));
    first [reflexivity | right; right; reflexivity].
Defined.

(** The offers reach the gist exactly when the gist is configured, can be
    read, the token passes the owner and scope check whenever the user can
    be looked up, and the PATCH is accepted; the local files do not depend
    on any of it. *)
Theorem gist_mirror_is_guarded env allOffers lastFetchedPostId disk :
  let saved := Index.saveData env allOffers lastFetchedPostId disk in
  let mirrored :=
    Index.GIST_ID env && Index.GITHUB_TOKEN env && Index.gistOk env
    && (if Index.userOk env then Index.tokenOwnsGist env && Index.gistScope env else true)
    && Index.patchOk env in
  Index.gist saved !! Index.parsed_comps
  = (if mirrored then Some (Index.OffersFile allOffers)
     else Index.gist disk !! Index.parsed_comps)
  ∧ Index.files saved
    = Index.files
        (Index.saveData
           {| Index.outputPath := Index.outputPath env;
              Index.metadataPath := Index.metadataPath env;
              Index.GIST_ID := false; Index.GITHUB_TOKEN := false;
              Index.writable := Index.writable env;
              Index.gistOk := false; Index.userOk := false;
              Index.tokenOwnsGist := false; Index.gistScope := false;
              Index.patchOk := false; Index.metadataPatchOk := false;
              Index.now := Index.now env |}
           allOffers lastFetchedPostId disk).
Proof.
  intros saved mirrored. split; [|unfold saved; by rewrite !saveData_files].
  unfold saved, mirrored, Index.saveData.
  destruct (Index.writable env (Index.outputPath env)),
    (Index.GIST_ID env), (Index.GITHUB_TOKEN env), (Index.gistOk env),
    (Index.userOk env), (Index.tokenOwnsGist env), (Index.gistScope env),
    (Index.patchOk env), (truthy lastFetchedPostId),
    (Index.writable env (Index.metadataPath env)), (Index.metadataPatchOk env);
    cbn; rewrite ?lookup_insert_ne by done; rewrite ?lookup_singleton_eq; done.
Qed.

(** ** The run *)

(** The counts a run reports: the posts processed are within the limit of
    the mode (500 with a cursor, 2000 without), the successes are among
    them, and the total is the loaded dataset plus the new offers. *)
Theorem run_counts env listing topic parsePost disk :
  let result := (Index.run env listing topic parsePost disk).1 in
  let loaded := Index.loadExistingData env disk in
  0 ≤ Index.successful result
  ∧ Index.successful result ≤ Index.processed result
  ∧ Index.processed result ≤ (if truthy loaded.1.2 then 500 else 2000)
  ∧ 0 ≤ Index.newOffers result
  ∧ Index.totalOffersCount result
    = Z.of_nat (length loaded.1.1) + Index.newOffers result.
Proof.
  intros result loaded. unfold result, Index.run. fold loaded.
  destruct loaded as [[existingOffers lastPostId] lastFetchTime]. cbn [fst snd].
  unfold Index.finish. cbn [fst Index.successful Index.processed Index.newOffers
                              Index.totalOffersCount].
  pose proof (loop_counts parsePost (Index.fetched listing topic lastPostId) Index.initial)
    as (H0 & H1 & H2 & H3). simpl in H0, H1, H2, H3.
  pose proof (getLatestPosts_at_most_maxPosts lastPostId
                (if truthy lastPostId then 500 else 2000) listing topic) as Hmax.
  fold (Index.fetched listing topic lastPostId) in Hmax.
  unfold Index.allOffers. rewrite length_app.
  repeat split; try lia.
  destruct (truthy lastPostId); lia.
Qed.

Section Stamp.
Variable parsePost : Z → LeetCodePost → Outcome (nullable (list Schema.ParsedOffer)).
Local Abbreviation loop := (Index.loop parsePost).

Lemma loop_accumulates_stamped posts s offer :
  offer ∈ Index.newParsedOffers (loop posts s) →
  offer ∈ Index.newParsedOffers s
  ∨ ∃ n post postDate parsed found,
      post ∈ posts ∧ 0 ≤ vote_count post
      ∧ toISODate (creation_date post) = Some postDate
      ∧ parsePost n post = Return (value found) ∧ parsed ∈ found
      ∧ offer = Index.withMetadata post postDate parsed.
Proof.
  revert s. induction posts as [|post rest IH]; intros s; [by left|].
  assert (Hgo : ∀ s1,
            Index.newParsedOffers s1 = Index.newParsedOffers s →
            offer ∈ Index.newParsedOffers (loop rest s1) →
            offer ∈ Index.newParsedOffers s
            ∨ ∃ n p postDate parsed found,
                p ∈ post :: rest ∧ 0 ≤ vote_count p
                ∧ toISODate (creation_date p) = Some postDate
                ∧ parsePost n p = Return (value found) ∧ parsed ∈ found
                ∧ offer = Index.withMetadata p postDate parsed).
  { intros s1 Hsame Hin. destruct (IH s1 Hin) as [Hold|(n & p & d & o & f & Hp & Hr)].
    - left. by rewrite <- Hsame.
    - right. exists n, p, d, o, f. split; [by apply list_elem_of_further | done]. }
  assert (Hp : ∀ s0, Index.newParsedOffers (Index.pause s0) = Index.newParsedOffers s0).
  { intros s0. unfold Index.pause. by destruct (_ && _); [|destruct (_ >? _)]. }
  cbn [Index.loop]. destruct (_ >=? _); [by left|].
  destruct (Z.ltb_spec (vote_count post) 0) as [Hneg|Hvotes]; [by apply Hgo|].
  destruct (parsePost _ post) as [[| |[|parsed found]]|message] eqn:Hparse;
    try (apply Hgo; simpl; by rewrite Hp).
  - destruct (toISODate _) as [postDate|] eqn:Hdate; [|apply Hgo; simpl; by rewrite Hp].
    intros Hin. destruct (IH _ Hin) as [Hold|(n & p & d & o & f & Hin' & Hr)].
    + simpl in Hold. rewrite Hp in Hold. simpl in Hold.
      apply elem_of_app in Hold as [Hold|Hnew]; [by left|]. right.
      change (offer ∈ Index.withMetadata post postDate <$> parsed :: found) in Hnew.
      apply list_elem_of_fmap in Hnew as (o & -> & Ho).
      eexists _, post, postDate, o, (parsed :: found).
      split; [apply list_elem_of_here|]. by repeat split.
    + right. exists n, p, d, o, f. split; [by apply list_elem_of_further | done].
  - destruct (String.eqb _ _); [|apply Hgo; simpl; by rewrite Hp].
    simpl. rewrite Hp. by left.
Qed.
End Stamp.

(** Every offer a run accumulates carries the id, the title, the date and
    the time of a post of the stream whose votes are not negative, and none
    of its seven fields is [undefined]. *)
Theorem accumulated_offers_are_stamped parsePost posts offer :
  offer ∈ Index.newParsedOffers (Index.loop parsePost posts Index.initial) →
  (∃ post postDate,
     post ∈ posts ∧ 0 ≤ vote_count post
     ∧ toISODate (creation_date post) = Some postDate
     ∧ Index.post_id offer = value (id post)
     ∧ Index.post_title offer = value (title post)
     ∧ Index.post_date offer = value postDate
     ∧ Index.post_timestamp offer = value (creation_date post))
  ∧ Index.company offer ≠ undefined ∧ Index.role offer ≠ undefined
  ∧ Index.yoe offer ≠ undefined ∧ Index.base_offer offer ≠ undefined
  ∧ Index.total_offer offer ≠ undefined ∧ Index.location offer ≠ undefined
  ∧ Index.visa_sponsorship offer ≠ undefined.
Proof.
  intros Hin.
  apply loop_accumulates_stamped in Hin
    as [Hin|(n & post & postDate & parsed & found & Hp & Hv & Hd & _ & _ & ->)].
  { by apply elem_of_nil in Hin. }
  split.
  { exists post, postDate. simpl. by repeat split. }
  assert (Hc : ∀ A (x : nullable A), coalesce_null x ≠ undefined) by (by intros A []).
  simpl. repeat split; apply Hc.
Qed.

Lemma accumulated_offers_are_stamped_witness :
  let offer := Sample.offer "Acme" "105" in
  (∃ post postDate,
     post ∈ [Sample.post "105" 3] ∧ 0 ≤ vote_count post
     ∧ toISODate (creation_date post) = Some postDate
     ∧ Index.post_id offer = value (id post)
     ∧ Index.post_title offer = value (title post)
     ∧ Index.post_date offer = value postDate
     ∧ Index.post_timestamp offer = value (creation_date post))
  ∧ Index.company offer ≠ undefined ∧ Index.role offer ≠ undefined
  ∧ Index.yoe offer ≠ undefined ∧ Index.base_offer offer ≠ undefined
  ∧ Index.total_offer offer ≠ undefined ∧ Index.location offer ≠ undefined
  ∧ Index.visa_sponsorship offer ≠ undefined.
Proof.
  intros offer.
  apply (accumulated_offers_are_stamped
           (λ _ _, Return (value [Sample.parsed "Acme" 4500000])) [Sample.post "105" 3]).
  apply list_elem_of_here.
Defined.

(** ** The cron routes *)

Lemma strictEqString_true x s : Cron.strictEqString x s = true ↔ x = value s.
Proof.
  destruct x as [| |y]; simpl; try (split; discriminate).
  rewrite String.eqb_eq. split; [by intros -> | by intros [= ->]].
Qed.

Lemma truthy_secret (cronSecret : nullable string) :
  truthy cronSecret = true ↔ ∃ s, cronSecret = value s ∧ s ≠ "".
Proof. apply truthy_nullable_string. Qed.

(** The route of [packages/leetoffer] runs the pipeline exactly for a
    request that carries the header of the scheduler, or the bearer token of
    a secret that is configured and not empty; every other request is
    answered 401 and [run] is not called. *)
Theorem CronLeetoffer_runs_iff_authorized CRON_SECRET request run :
  let handled := CronLeetoffer.GET CRON_SECRET request run in
  (Cron.invoked handled = true ↔
   Cron.x_vercel_cron request = value "1"
   ∨ ∃ secret, CRON_SECRET = value secret ∧ secret ≠ ""
               ∧ Cron.authorization request = value ("Bearer " +:+ secret))
  ∧ (Cron.invoked handled = true → handled = Cron.refresh run)
  ∧ (Cron.invoked handled = false → ∃ error, handled = Cron.refuse error).
Proof.
  intros handled. unfold handled, CronLeetoffer.GET. cbv zeta.
  destruct (Cron.strictEqString (Cron.x_vercel_cron request) "1") eqn:Hcron;
    cbn [negb andb].
  { apply strictEqString_true in Hcron.
    cbn. split; [split; [by left | done]|]. split; [done | discriminate]. }
  assert (Hnot : Cron.x_vercel_cron request ≠ value "1").
  { intros H. apply strictEqString_true in H. congruence. }
  destruct (truthy CRON_SECRET) eqn:Hsecret; cbn [negb andb].
  - apply truthy_secret in Hsecret as (secret & -> & Hne).
    destruct (Cron.strictEqString (Cron.authorization request) _) eqn:Hauth; cbn [negb].
    + apply strictEqString_true in Hauth.
      cbn. split; [split; [|done]|split; [done | discriminate]].
      intros _. right. by exists secret.
    + cbn. split; [split; [discriminate|]|split; [discriminate | intros _; by eexists]].
      intros [H|(s & [= <-] & _ & H)]; [done|].
      apply strictEqString_true in H.
      change (Cron.bearer (value secret)) with ("Bearer " +:+ secret) in Hauth.
      congruence.
  - cbn. split; [split; [discriminate|]|split; [discriminate | intros _; by eexists]].
    intros [H|(s & -> & Hne & _)]; [done|].
    apply truthy_string_iff in Hne.
    change (truthy (value s)) with (truthy s) in Hsecret. congruence.
Qed.

(** The route of [packages/leetcomp] refuses a request only when a secret
    is configured, not empty, and the request does not carry its bearer
    token: with no secret every request runs the pipeline. *)
Theorem CronLeetcomp_runs_unless_secret_mismatch CRON_SECRET request run :
  let handled := CronLeetcomp.GET CRON_SECRET request run in
  (Cron.invoked handled = false ↔
   ∃ secret, CRON_SECRET = value secret ∧ secret ≠ ""
             ∧ Cron.authorization request ≠ value ("Bearer " +:+ secret))
  ∧ (Cron.invoked handled = true → handled = Cron.refresh run)
  ∧ (Cron.invoked handled = false → handled = Cron.refuse "Unauthorized").
Proof.
  intros handled. unfold handled, CronLeetcomp.GET. cbv zeta.
  destruct (truthy CRON_SECRET) eqn:Hsecret; cbn [negb andb].
  - apply truthy_secret in Hsecret as (secret & -> & Hne).
    destruct (Cron.strictEqString (Cron.authorization request) _) eqn:Hauth; cbn [negb].
    + apply strictEqString_true in Hauth.
      cbn. split; [split; [discriminate|]|split; [done | discriminate]].
      intros (s & [= <-] & _ & H). by destruct H.
    + cbn. split; [split; [|done]|split; [discriminate | done]].
      intros _. exists secret. split; [done|]. split; [done|].
      intros H. apply strictEqString_true in H.
      change (Cron.bearer (value secret)) with ("Bearer " +:+ secret) in Hauth.
      congruence.
  - cbn. split; [split; [discriminate|]|split; [done | discriminate]].
    intros (s & -> & Hne & _). apply truthy_string_iff in Hne.
    change (truthy (value s)) with (truthy s) in Hsecret. congruence.
Qed.
